(** * In-memory key-value store with TTL: a shallow embedding of
      [internal/store/memory/memory.go] and the properties of its
      operations.

    The store maps string keys to [Value] entries (a scalar string or a
    list of strings, with an optional expiration instant).  Every
    operation of [MemoryStore] holds the store's lock for its critical
    section, so each one is modelled as a function from the store before
    the call to the store after it, together with the values the Go
    function returns.  Every [time.Now()] the Go code evaluates is an
    explicit argument of the model, in the order the code reads them. *)

From Stdlib Require Import ZArith Lia.
From stdpp Require Import base option strings pretty gmap fin_maps.

Local Open Scope Z_scope.

(** ** The parts of Go's [time] package the store uses.

    A [Time] is an instant counted in nanoseconds from the zero Time
    (January 1, year 1, 00:00:00 UTC); a [Duration] is an [int64] count
    of nanoseconds. *)
Module time.

Definition Time : Type := Z.
Definition Duration : Type := Z.

(** [time.Time{}], the value of a [Time] variable never assigned. *)
Definition zero : Time := 0.

Definition Second : Duration := 1000000000.

Definition IsZero (t : Time) : bool := t =? 0.
Definition Before (t u : Time) : bool := t <? u.
Definition After (t u : Time) : bool := u <? t.
Definition Add (t : Time) (d : Duration) : Time := t + d.

End time.

(** Two's complement wrap-around of [int64] arithmetic. *)
Definition wrap64 (z : Z) : Z := (z + 2 ^ 63) mod 2 ^ 64 - 2 ^ 63.

(** [time.Duration(ttlSeconds) * time.Second]: an [int64] product, which
    wraps around silently in Go.  [ttlSeconds] is an [int], 64 bits wide
    on the amd64 and arm64 targets, so the conversion to [Duration]
    changes nothing. *)
Definition seconds (ttlSeconds : Z) : time.Duration :=
  wrap64 (ttlSeconds * time.Second).

(** The sentinel errors of the package; a returned [error] is
    [option error], with [None] for Go's [nil]. *)
Inductive error : Type :=
| ErrKeyNotFound
| ErrTypeMismatch
| ErrInvalidTTL
| ErrEmptyList
| ErrMarshalFailed.

(** Modelled from the spec: the declaration of the [Value] struct is not
    in memory.go.  Its fields are the four that memory.go reads and
    writes; they are the spec's Entry: [Val] is the scalar string, [List]
    the ordered list (front = index 0), [IsList] the kind, and [TTL] the
    absolute expiration instant, zero meaning that the entry never
    expires. *)
Record Value : Type := mkValue {
  Val : string;
  TTL : time.Time;
  IsList : bool;
  List : list string
}.

(** The zero [Value], which a Go map lookup yields for a missing key. *)
Definition zeroValue : Value :=
  {| Val := ""; TTL := time.zero; IsList := false; List := [] |}.

(** [v.Val = x] and [v.List = l] on a local copy of an entry. *)
Definition set_Val (v : Value) (x : string) : Value :=
  {| Val := x; TTL := TTL v; IsList := IsList v; List := List v |}.

Definition set_List (v : Value) (l : list string) : Value :=
  {| Val := Val v; TTL := TTL v; IsList := IsList v; List := l |}.

(** The store: the [data] map of the Go struct.  The mutex and the
    worker's cancellation context carry no data of their own. *)
Record MemoryStore : Type := mkStore {
  data : gmap string Value
}.

Definition NewMemoryStore : MemoryStore := {| data := ∅ |}.

(** [s.data[key] = v] and [delete(s.data, key)]. *)
Definition store_put (key : string) (v : Value) (s : MemoryStore) : MemoryStore :=
  {| data := <[key := v]> (data s) |}.

Definition store_delete (key : string) (s : MemoryStore) : MemoryStore :=
  {| data := delete key (data s) |}.

(** The test [!v.TTL.IsZero() && time.Now().After(v.TTL)] that Get (on
    its locked path), Update, Push, Pop and the sweep all make. *)
Definition expired (now : time.Time) (v : Value) : bool :=
  negb (time.IsZero (TTL v)) && time.After now (TTL v).

Section Store.

(** A value of Go's [any] is either a [string] or a value of another
    dynamic type; [json_Marshal] is [encoding/json.Marshal] on the
    latter, [None] when it returns an error. *)
Variable Other : Type.
Variable json_Marshal : Other → option string.

Inductive any : Type :=
| any_string (val : string)
| any_other (val : Other).

(** Stringify converts any value to string. *)
Definition Stringify (v : any) : option string :=
  match v with
  | any_string val => Some val
  | any_other val =>
      match json_Marshal val with
      | None => None
      | Some b => Some b
      end
  end.

(** Set sets a key with a value and optional ttl (0 = no TTL). *)
Definition Set_ (now : time.Time) (key : string) (value : any)
    (ttlSeconds : Z) (s : MemoryStore) : MemoryStore * option error :=
  if ttlSeconds <? 0 then (s, Some ErrInvalidTTL)
  else
    match Stringify value with
    | None => (s, Some ErrMarshalFailed)
    | Some stringValue =>
        let ttl :=
          if 0 <? ttlSeconds then time.Add now (seconds ttlSeconds)
          else time.zero in
        (store_put key
           {| Val := stringValue; TTL := ttl; IsList := false; List := [] |} s,
         None)
    end.

(** Get gets a value from the store.  [now1] is the clock read under
    the read lock, [now2] the one read after the write lock is taken;
    the entry is fetched again there, and no other operation runs
    between the two locks. *)
Definition Get (now1 now2 : time.Time) (key : string) (s : MemoryStore)
    : MemoryStore * (string * option error) :=
  match data s !! key with
  | None => (s, ("", Some ErrKeyNotFound))
  | Some v =>
      if time.IsZero (TTL v) || time.Before now1 (TTL v) then
        if IsList v then (s, ("", Some ErrTypeMismatch))
        else (s, (Val v, None))
      else
        match data s !! key with
        | None => (s, ("", Some ErrKeyNotFound))
        | Some v =>
            if negb (time.IsZero (TTL v)) && time.After now2 (TTL v) then
              (store_delete key s, ("", Some ErrKeyNotFound))
            else if IsList v then (s, ("", Some ErrTypeMismatch))
            else (s, (Val v, None))
        end
  end.

(** Update updates a value in the store. *)
Definition Update (now : time.Time) (key : string) (value : any)
    (s : MemoryStore) : MemoryStore * option error :=
  match Stringify value with
  | None => (s, Some ErrMarshalFailed)
  | Some stringValue =>
      match data s !! key with
      | None => (s, Some ErrKeyNotFound)
      | Some v =>
          if negb (time.IsZero (TTL v)) && time.After now (TTL v) then
            (store_delete key s, Some ErrKeyNotFound)
          else if IsList v then (s, Some ErrTypeMismatch)
          else (store_put key (set_Val v stringValue) s, None)
      end
  end.

(** Remove deletes a key from the store. *)
Definition Remove (key : string) (s : MemoryStore)
    : MemoryStore * option error :=
  match data s !! key with
  | None => (s, Some ErrKeyNotFound)
  | Some _ => (store_delete key s, None)
  end.

(** Push puts an item at the front of the list at [key]; the two
    clock readings are those of the outer and of the inner test. *)
Definition Push (now1 now2 : time.Time) (key : string) (item : any)
    (s : MemoryStore) : MemoryStore * option error :=
  match Stringify item with
  | None => (s, Some ErrMarshalFailed)
  | Some stringItem =>
      let v := default zeroValue (data s !! key) in
      let exists_ := bool_decide (is_Some (data s !! key)) in
      let '(s1, v1) :=
        if negb exists_
           || (negb (time.IsZero (TTL v)) && time.After now1 (TTL v))
        then
          (if exists_
              && (negb (time.IsZero (TTL v)) && time.After now2 (TTL v))
           then store_delete key s else s,
           {| Val := ""; TTL := time.zero; IsList := true; List := [] |})
        else (s, v) in
      if negb (IsList v1) then (s1, Some ErrTypeMismatch)
      else (store_put key (set_List v1 (stringItem :: List v1)) s1, None)
  end.

(** Pop takes a value from the list. *)
Definition Pop (now : time.Time) (key : string) (s : MemoryStore)
    : MemoryStore * (string * option error) :=
  match data s !! key with
  | None => (s, ("", Some ErrKeyNotFound))
  | Some v =>
      if negb (time.IsZero (TTL v)) && time.After now (TTL v) then
        (store_delete key s, ("", Some ErrKeyNotFound))
      else if negb (IsList v) then (s, ("", Some ErrTypeMismatch))
      else
        match List v with
        | [] => (s, ("", Some ErrEmptyList))
        | item :: rest => (store_put key (set_List v rest) s, (item, None))
        end
  end.

End Store.

Arguments any_string {Other} val.
Arguments any_other {Other} val.
Arguments Stringify {Other} json_Marshal v.
Arguments Set_ {Other} json_Marshal now key value ttlSeconds s.
Arguments Update {Other} json_Marshal now key value s.
Arguments Push {Other} json_Marshal now1 now2 key item s.

(** ** A concrete family of non-string values, for running the model.

    [json.Marshal] writes an [int] in decimal and a [bool] as [true] or
    [false], and returns an error for a channel. *)
Inductive GoValue : Type :=
| go_int (n : Z)
| go_bool (b : bool)
| go_chan.

Definition marshal (o : GoValue) : option string :=
  match o with
  | go_int n => Some (pretty n)
  | go_bool true => Some "true"
  | go_bool false => Some "false"
  | go_chan => None
  end.

(** ** Clock readings and small stores to run the model on *)

(** An instant that [time.Now()] can return on a running system: more
    than [2 ^ 63] nanoseconds (about 292 years) after the zero Time, so
    that no [int64] duration added to it gives the zero Time. *)
Definition clock_reading (now : time.Time) : Prop := 2 ^ 63 < now.

(** A clock reading in the year 2025. *)
Definition t2025 : time.Time := 63900000000000000000.

(** The store after [Set(ctx, "k", "v", 1)] on an empty store in 2025. *)
Definition one_second_store : MemoryStore :=
  (Set_ marshal t2025 "k" (any_string "v") 1 NewMemoryStore).1.

Definition one_second_entry : Value :=
  {| Val := "v"; TTL := t2025 + 1000000000; IsList := false; List := [] |}.

(** The store after [Push(ctx, "l", "x")] on an empty store. *)
Definition one_item_store : MemoryStore :=
  (Push marshal t2025 t2025 "l" (any_string "x") NewMemoryStore).1.

Definition one_item_entry : Value :=
  {| Val := ""; TTL := time.zero; IsList := true; List := ["x"] |}.

(** ** The text of the sentinel errors: [err.Error()] *)
Definition error_Error (e : error) : string :=
  match e with
  | ErrKeyNotFound => "key not found"
  | ErrTypeMismatch => "operation not supported for this data type"
  | ErrInvalidTTL => "invalid TTL value"
  | ErrEmptyList => "list is empty"
  | ErrMarshalFailed => "failed to marshal value to JSON"
  end.

(** ** One tick of the TTL worker

    The body that [doStartTTLWorker] runs under the lock at each tick:
    a [range] over the map that, at every entry, first looks whether the
    context is done (and then unlocks and returns), and otherwise
    deletes the entry when it is expired at the clock reading of that
    iteration.  [entries] is the sequence of entries the [range]
    produces, [done i] tells whether the context is seen done at
    iteration [i], and [clock i] is the clock read there. *)
Fixpoint sweep_loop (done : nat → bool) (clock : nat → time.Time) (i : nat)
    (entries : list (string * Value)) (s : MemoryStore) : MemoryStore :=
  match entries with
  | [] => s
  | (k, v) :: rest =>
      if done i then s
      else
        sweep_loop done clock (S i) rest
          (if negb (time.IsZero (TTL v)) && time.After (clock i) (TTL v)
           then store_delete k s else s)
  end.

(** A [range] over a Go map produces every entry once, in an order that
    is not specified.  The loop deletes only the entry it is at, so the
    entries produced are those of the map as the tick found it. *)
Definition ranges_over (entries : list (string * Value)) (s : MemoryStore)
    : Prop :=
  entries ≡ₚ map_to_list (data s).

(** ** Stores that a program can build

    The stores reached from a new one by the six operations and by
    worker ticks, at any clock readings. *)
Inductive reachable {Other : Type} (json_Marshal : Other → option string)
    : MemoryStore → Prop :=
| reach_New : reachable json_Marshal NewMemoryStore
| reach_Set s now key value ttlSeconds :
    reachable json_Marshal s →
    reachable json_Marshal (Set_ json_Marshal now key value ttlSeconds s).1
| reach_Get s now1 now2 key :
    reachable json_Marshal s →
    reachable json_Marshal (Get now1 now2 key s).1
| reach_Update s now key value :
    reachable json_Marshal s →
    reachable json_Marshal (Update json_Marshal now key value s).1
| reach_Remove s key :
    reachable json_Marshal s →
    reachable json_Marshal (Remove key s).1
| reach_Push s now1 now2 key item :
    reachable json_Marshal s →
    reachable json_Marshal (Push json_Marshal now1 now2 key item s).1
| reach_Pop s now key :
    reachable json_Marshal s →
    reachable json_Marshal (Pop now key s).1
| reach_sweep s done clock entries :
    reachable json_Marshal s →
    ranges_over entries s →
    reachable json_Marshal (sweep_loop done clock 0 entries s).

(** The shape of the entries the operations write: a scalar entry has
    no list, and a list entry has no string and no expiration. *)
Definition well_formed (v : Value) : Prop :=
  if IsList v then Val v = "" ∧ TTL v = 0 else List v = [].

(** ** Runs of Push and of Pop on one key *)

(** The key holds the list [l] and never expires; an absent key counts
    as the empty list, which is what Push takes it for. *)
Definition holds_list (key : string) (l : list string) (s : MemoryStore)
    : Prop :=
  match data s !! key with
  | None => l = []
  | Some v => IsList v = true ∧ TTL v = 0 ∧ List v = l
  end.

(** Push the items one after the other, each with its two clock
    readings; the result is the last store and the errors returned. *)
Fixpoint push_all {Other : Type} (json_Marshal : Other → option string)
    (key : string) (pushes : list (time.Time * time.Time * any Other))
    (s : MemoryStore) : MemoryStore * list (option error) :=
  match pushes with
  | [] => (s, [])
  | (now1, now2, item) :: rest =>
      let r := Push json_Marshal now1 now2 key item s in
      let rs := push_all json_Marshal key rest r.1 in
      (rs.1, r.2 :: rs.2)
  end.

(** Pop once at each of the clock readings. *)
Fixpoint pop_all (key : string) (nows : list time.Time) (s : MemoryStore)
    : MemoryStore * list (string * option error) :=
  match nows with
  | [] => (s, [])
  | now :: rest =>
      let r := Pop now key s in
      let rs := pop_all key rest r.1 in
      (rs.1, r.2 :: rs.2)
  end.

(** ** The HTTP handlers of package [api]

    The constants of [net/http] that the handlers use. *)
Module http.

Definition StatusOK : Z := 200.
Definition StatusBadRequest : Z := 400.
Definition StatusNotFound : Z := 404.
Definition StatusMethodNotAllowed : Z := 405.
Definition StatusInternalServerError : Z := 500.

Definition MethodGet : string := "GET".
Definition MethodPost : string := "POST".
Definition MethodPut : string := "PUT".
Definition MethodDelete : string := "DELETE".

End http.

Module api.

(** The body of every reply.  [Data] is [nil] in an error reply and a
    [map[string]string] in a success reply. *)
Record Response : Type := mkResponse {
  Success : bool;
  Data : option (gmap string string);
  Error : string
}.

Record SetRequest (Other : Type) : Type := mkSetRequest {
  SetRequest_Key : string;
  SetRequest_Value : any Other;
  SetRequest_TTLSeconds : Z
}.

Record UpdateRequest (Other : Type) : Type := mkUpdateRequest {
  UpdateRequest_Key : string;
  UpdateRequest_Value : any Other
}.

Record PushRequest (Other : Type) : Type := mkPushRequest {
  PushRequest_Key : string;
  PushRequest_Item : any Other
}.

Record PopRequest : Type := mkPopRequest {
  PopRequest_Key : string
}.

(** What a handler reads of an [*http.Request]: the method, the path of
    the URL, and what [json.NewDecoder(r.Body).Decode(&req)] gives for
    the request type [B] of the handler, [None] when it returns an
    error. *)
Record Request (B : Type) : Type := mkRequest {
  Method : string;
  Path : string;
  Body : option B
}.

Arguments SetRequest_Key {Other} _.
Arguments SetRequest_Value {Other} _.
Arguments SetRequest_TTLSeconds {Other} _.
Arguments UpdateRequest_Key {Other} _.
Arguments UpdateRequest_Value {Other} _.
Arguments PushRequest_Key {Other} _.
Arguments PushRequest_Item {Other} _.
Arguments mkSetRequest {Other} _ _ _.
Arguments mkUpdateRequest {Other} _ _.
Arguments mkPushRequest {Other} _ _.
Arguments Method {B} _.
Arguments Path {B} _.
Arguments Body {B} _.
Arguments mkRequest {B} _ _ _.

(** What a handler does to the [http.ResponseWriter]: it writes one
    status code and one [Response], or it panics before writing. *)
Inductive reply : Type :=
| wrote (statusCode : Z) (response : Response)
| panicked.

Definition statusCode_of (r : reply) : option Z :=
  match r with
  | wrote statusCode _ => Some statusCode
  | panicked => None
  end.

(** The slice expression [s[n:]], which panics when [n > len(s)]. *)
Definition slice_from (n : nat) (s : string) : option string :=
  if (n <=? String.length s)%nat
  then Some (String.substring n (String.length s - n) s)
  else None.

(** writeJSON is a helper function to write JSON responses. *)
Definition writeJSON (statusCode : Z) (response : Response) : reply :=
  wrote statusCode response.

(** writeError is a helper function to write error responses. *)
Definition writeError (statusCode : Z) (message : string) : reply :=
  writeJSON statusCode
    {| Success := false; Data := None; Error := message |}.

(** writeSuccess is a helper function to write success responses. *)
Definition writeSuccess (data : gmap string string) : reply :=
  writeJSON http.StatusOK
    {| Success := true; Data := Some data; Error := "" |}.

Section Handlers.

Context {Other : Type} (json_Marshal : Other → option string).

(** SetHandler handles SET operations: POST /api/v1/keys. *)
Definition SetHandler (now : time.Time) (r : Request (SetRequest Other))
    (s : MemoryStore) : MemoryStore * reply :=
  if negb (bool_decide (Method r = http.MethodPost)) then
    (s, writeError http.StatusMethodNotAllowed "Method not allowed")
  else
    match Body r with
    | None => (s, writeError http.StatusBadRequest "Invalid JSON payload")
    | Some req =>
        if bool_decide (SetRequest_Key req = "") then
          (s, writeError http.StatusBadRequest "Key is required")
        else if SetRequest_TTLSeconds req <=? 0 then
          (s, writeError http.StatusBadRequest
                "TTL is required and must be greater than 0")
        else
          match Set_ json_Marshal now (SetRequest_Key req)
                  (SetRequest_Value req) (SetRequest_TTLSeconds req) s with
          | (s', Some err) =>
              (s', writeError http.StatusInternalServerError
                     ("Failed to set key: " +:+ error_Error err))
          | (s', None) =>
              (s', writeSuccess {[ "message" := "Key set successfully" ]})
          end
    end.

(** GetHandler handles GET operations: GET /api/v1/keys/{key}. *)
Definition GetHandler {B : Type} (now1 now2 : time.Time) (r : Request B)
    (s : MemoryStore) : MemoryStore * reply :=
  if negb (bool_decide (Method r = http.MethodGet)) then
    (s, writeError http.StatusMethodNotAllowed "Method not allowed")
  else
    match slice_from (String.length "/api/v1/keys/") (Path r) with
    | None => (s, panicked)
    | Some key =>
        if bool_decide (key = "") then
          (s, writeError http.StatusBadRequest "Key is required")
        else
          match Get now1 now2 key s with
          | (s', (value, Some err)) =>
              if bool_decide (error_Error err = "key not found") then
                (s', writeError http.StatusNotFound "Key not found")
              else
                (s', writeError http.StatusInternalServerError
                       ("Failed to get key: " +:+ error_Error err))
          | (s', (value, None)) =>
              (s', writeSuccess {[ "key" := key; "value" := value ]})
          end
    end.

(** UpdateHandler handles UPDATE operations: PUT /api/v1/keys/{key}. *)
Definition UpdateHandler (now : time.Time)
    (r : Request (UpdateRequest Other)) (s : MemoryStore)
    : MemoryStore * reply :=
  if negb (bool_decide (Method r = http.MethodPut)) then
    (s, writeError http.StatusMethodNotAllowed "Method not allowed")
  else
    match slice_from (String.length "/api/v1/keys/") (Path r) with
    | None => (s, panicked)
    | Some key =>
        if bool_decide (key = "") then
          (s, writeError http.StatusBadRequest "Key is required")
        else
          match Body r with
          | None =>
              (s, writeError http.StatusBadRequest "Invalid JSON payload")
          | Some req =>
              match Update json_Marshal now key (UpdateRequest_Value req) s
              with
              | (s', Some err) =>
                  if bool_decide (error_Error err = "key not found") then
                    (s', writeError http.StatusNotFound "Key not found")
                  else
                    (s', writeError http.StatusInternalServerError
                           ("Failed to update key: " +:+ error_Error err))
              | (s', None) =>
                  (s', writeSuccess
                         {[ "message" := "Key updated successfully" ]})
              end
          end
    end.

(** RemoveHandler handles DELETE operations: DELETE /api/v1/keys/{key}. *)
Definition RemoveHandler {B : Type} (r : Request B) (s : MemoryStore)
    : MemoryStore * reply :=
  if negb (bool_decide (Method r = http.MethodDelete)) then
    (s, writeError http.StatusMethodNotAllowed "Method not allowed")
  else
    match slice_from (String.length "/api/v1/keys/") (Path r) with
    | None => (s, panicked)
    | Some key =>
        if bool_decide (key = "") then
          (s, writeError http.StatusBadRequest "Key is required")
        else
          match Remove key s with
          | (s', Some err) =>
              if bool_decide (error_Error err = "key not found") then
                (s', writeError http.StatusNotFound "Key not found")
              else
                (s', writeError http.StatusInternalServerError
                       ("Failed to remove key: " +:+ error_Error err))
          | (s', None) =>
              (s', writeSuccess
                     {[ "message" := "Key removed successfully" ]})
          end
    end.

(** PushHandler handles PUSH operations for lists:
    POST /api/v1/lists/push. *)
Definition PushHandler (now1 now2 : time.Time)
    (r : Request (PushRequest Other)) (s : MemoryStore)
    : MemoryStore * reply :=
  if negb (bool_decide (Method r = http.MethodPost)) then
    (s, writeError http.StatusMethodNotAllowed "Method not allowed")
  else
    match Body r with
    | None => (s, writeError http.StatusBadRequest "Invalid JSON payload")
    | Some req =>
        match Push json_Marshal now1 now2 (PushRequest_Key req)
                (PushRequest_Item req) s with
        | (s', Some err) =>
            (s', writeError http.StatusInternalServerError
                   ("Failed to push item: " +:+ error_Error err))
        | (s', None) =>
            (s', writeSuccess {[ "message" := "Item pushed successfully" ]})
        end
    end.

(** PopHandler handles POP operations for lists:
    POST /api/v1/lists/pop. *)
Definition PopHandler (now : time.Time) (r : Request PopRequest)
    (s : MemoryStore) : MemoryStore * reply :=
  if negb (bool_decide (Method r = http.MethodPost)) then
    (s, writeError http.StatusMethodNotAllowed "Method not allowed")
  else
    match Body r with
    | None => (s, writeError http.StatusBadRequest "Invalid JSON payload")
    | Some req =>
        match Pop now (PopRequest_Key req) s with
        | (s', (value, Some err)) =>
            if bool_decide (error_Error err = "key not found") then
              (s', writeError http.StatusNotFound "Key not found")
            else if bool_decide (error_Error err = "empty list") then
              (s', writeError http.StatusBadRequest "List is empty")
            else
              (s', writeError http.StatusInternalServerError
                     ("Failed to pop item: " +:+ error_Error err))
        | (s', (value, None)) =>
            (s', writeSuccess
                   {[ "key" := PopRequest_Key req; "value" := value ]})
        end
    end.

(** keyOperation handles GET, PUT and DELETE operations for keys as the
    request path is the same. *)
Definition keyOperation (now1 now2 : time.Time)
    (r : Request (UpdateRequest Other)) (s : MemoryStore)
    : MemoryStore * reply :=
  if bool_decide (Method r = http.MethodGet) then GetHandler now1 now2 r s
  else if bool_decide (Method r = http.MethodPut) then UpdateHandler now1 r s
  else if bool_decide (Method r = http.MethodDelete) then RemoveHandler r s
  else (s, writeError http.StatusMethodNotAllowed "Method not allowed").

End Handlers.

End api.

(** A handler has refused the request: it wrote a status that is
    neither 200 nor 404, or it panicked. *)
Definition refused (out : MemoryStore * api.reply) : Prop :=
  api.statusCode_of out.2 ≠ Some 200 ∧ api.statusCode_of out.2 ≠ Some 404.

(** Two stores that differ at most in what they hold under the empty
    key get the same reply. *)
Definition same_off_empty_key (s1 s2 : MemoryStore) : Prop :=
  ∀ k : string, k ≠ "" → data s1 !! k = data s2 !! k.

(** * Properties *)

(** ** Stringify on sample values *)

Example Stringify_int :
  Stringify marshal (any_other (go_int 42)) = Some "42".
Proof. vm_compute. reflexivity. Qed.

Example Stringify_string :
  Stringify marshal (any_string "hello") = Some "hello".
Proof. reflexivity. Qed.

Example Stringify_bool :
  Stringify marshal (any_other (go_bool true)) = Some "true".
Proof. reflexivity. Qed.

Example Stringify_chan :
  Stringify marshal (any_other go_chan) = None.
Proof. reflexivity. Qed.

(** ** The clock and the expiration test *)

Lemma expired_true_iff (now : time.Time) (v : Value) :
  expired now v = true ↔ TTL v ≠ 0 ∧ TTL v < now.
Proof.
  unfold expired, time.IsZero, time.After.
  rewrite andb_true_iff, negb_true_iff, Z.eqb_neq, Z.ltb_lt. tauto.
Qed.

Lemma expired_false_iff (now : time.Time) (v : Value) :
  expired now v = false ↔ TTL v = 0 ∨ now ≤ TTL v.
Proof.
  unfold expired, time.IsZero, time.After.
  rewrite andb_false_iff, negb_false_iff, Z.eqb_eq, Z.ltb_ge. tauto.
Qed.

Lemma expired_mono (now now' : time.Time) (v : Value) :
  now ≤ now' → expired now v = true → expired now' v = true.
Proof. rewrite !expired_true_iff. lia. Qed.

Lemma wrap64_small (z : Z) : - 2 ^ 63 ≤ z < 2 ^ 63 → wrap64 z = z.
Proof. intros Hz. unfold wrap64. rewrite Z.mod_small; lia. Qed.

Lemma wrap64_range (z : Z) : - 2 ^ 63 ≤ wrap64 z < 2 ^ 63.
Proof.
  unfold wrap64.
  pose proof (Z.mod_pos_bound (z + 2 ^ 63) (2 ^ 64) ltac:(lia)). lia.
Qed.

Lemma seconds_exact (t : Z) :
  0 ≤ t ≤ 9223372036 → seconds t = t * 1000000000.
Proof.
  intros Ht. unfold seconds, time.Second. apply wrap64_small. lia.
Qed.

(** ** The store as a map *)

Lemma store_eq (s1 s2 : MemoryStore) : data s1 = data s2 → s1 = s2.
Proof. destruct s1, s2; simpl; congruence. Qed.

Lemma store_put_delete key v s :
  store_put key v (store_delete key s) = store_put key v s.
Proof. apply store_eq; simpl. apply insert_delete_eq. Qed.

Lemma store_put_lookup key v s : data (store_put key v s) !! key = Some v.
Proof. simpl. apply lookup_insert_eq. Qed.

Lemma store_put_lookup_ne key key' v s :
  key ≠ key' → data (store_put key v s) !! key' = data s !! key'.
Proof. intros H. simpl. by apply lookup_insert_ne. Qed.

Lemma store_delete_lookup key s : data (store_delete key s) !! key = None.
Proof. simpl. apply lookup_delete_eq. Qed.

(** ** The operations, case by case *)

Section Operations.

Context {Other : Type} (json_Marshal : Other → option string).

Implicit Types (s : MemoryStore) (key : string) (v : Value).
Implicit Types (now : time.Time).

Lemma Get_absent now1 now2 key s :
  data s !! key = None →
  Get now1 now2 key s = (s, ("", Some ErrKeyNotFound)).
Proof. intros H. unfold Get. by rewrite H. Qed.

(** An entry that the locked path does not find expired is served,
    whichever path the first clock reading selects. *)
Lemma Get_live now1 now2 key s v :
  data s !! key = Some v →
  expired now2 v = false →
  Get now1 now2 key s =
    (s, if IsList v then ("", Some ErrTypeMismatch) else (Val v, None)).
Proof.
  intros H Hlive. unfold Get. rewrite H.
  fold (expired now2 v). rewrite Hlive.
  destruct (time.IsZero (TTL v) || time.Before now1 (TTL v));
    by destruct (IsList v).
Qed.

(** The fast path alone already serves an entry whose expiration lies
    ahead of the first clock reading. *)
Lemma Get_before now1 now2 key s v :
  data s !! key = Some v →
  now1 < TTL v →
  Get now1 now2 key s =
    (s, if IsList v then ("", Some ErrTypeMismatch) else (Val v, None)).
Proof.
  intros H Hlt. unfold Get. rewrite H.
  assert (time.Before now1 (TTL v) = true) as ->
    by (unfold time.Before; lia).
  rewrite orb_true_r. by destruct (IsList v).
Qed.

Lemma Get_expired now1 now2 key s v :
  data s !! key = Some v →
  now1 ≤ now2 →
  expired now1 v = true →
  Get now1 now2 key s = (store_delete key s, ("", Some ErrKeyNotFound)).
Proof.
  intros H Hle Hexp. unfold Get. rewrite H.
  pose proof (expired_mono _ _ _ Hle Hexp) as Hexp2.
  apply expired_true_iff in Hexp as [Hnz Hlt].
  assert (time.IsZero (TTL v) || time.Before now1 (TTL v) = false) as ->.
  { unfold time.IsZero, time.Before. apply orb_false_iff. lia. }
  fold (expired now2 v). by rewrite Hexp2.
Qed.

Lemma Update_absent now key value s :
  data s !! key = None →
  Update json_Marshal now key value s =
    (s, Some (match Stringify json_Marshal value with
              | Some _ => ErrKeyNotFound
              | None => ErrMarshalFailed
              end)).
Proof. intros H. unfold Update. rewrite H. by destruct Stringify. Qed.

Lemma Update_present now key value s v str :
  Stringify json_Marshal value = Some str →
  data s !! key = Some v →
  Update json_Marshal now key value s =
    if expired now v then (store_delete key s, Some ErrKeyNotFound)
    else if IsList v then (s, Some ErrTypeMismatch)
    else (store_put key (set_Val v str) s, None).
Proof. intros Hstr H. unfold Update. by rewrite Hstr, H. Qed.

Lemma Update_unserializable now key value s :
  Stringify json_Marshal value = None →
  Update json_Marshal now key value s = (s, Some ErrMarshalFailed).
Proof. intros H. unfold Update. by rewrite H. Qed.

Lemma Pop_present now key s v :
  data s !! key = Some v →
  Pop now key s =
    if expired now v then (store_delete key s, ("", Some ErrKeyNotFound))
    else if negb (IsList v) then (s, ("", Some ErrTypeMismatch))
    else match List v with
         | [] => (s, ("", Some ErrEmptyList))
         | item :: rest => (store_put key (set_List v rest) s, (item, None))
         end.
Proof. intros H. unfold Pop. by rewrite H. Qed.

Lemma Pop_absent now key s :
  data s !! key = None → Pop now key s = (s, ("", Some ErrKeyNotFound)).
Proof. intros H. unfold Pop. by rewrite H. Qed.

(** On an absent or expired key Push starts from a new empty list; the
    inner clock reading only decides whether the old entry is deleted
    before it is overwritten. *)
Lemma Push_fresh now1 now2 key item s str :
  Stringify json_Marshal item = Some str →
  (data s !! key = None ∨
   ∃ v, data s !! key = Some v ∧ expired now1 v = true) →
  Push json_Marshal now1 now2 key item s =
    (store_put key
       {| Val := ""; TTL := time.zero; IsList := true; List := [str] |} s,
     None).
Proof.
  intros Hstr H. unfold Push. rewrite Hstr.
  destruct H as [H | (v & H & Hexp)]; rewrite H; simpl.
  - reflexivity.
  - fold (expired now1 v) (expired now2 v). rewrite Hexp. simpl.
    destruct (expired now2 v); simpl; [|reflexivity].
    f_equal. apply store_put_delete.
Qed.

Lemma Push_live now1 now2 key item s v str :
  Stringify json_Marshal item = Some str →
  data s !! key = Some v →
  expired now1 v = false →
  Push json_Marshal now1 now2 key item s =
    if IsList v then (store_put key (set_List v (str :: List v)) s, None)
    else (s, Some ErrTypeMismatch).
Proof.
  intros Hstr H Hlive. unfold Push. rewrite Hstr, H. simpl.
  fold (expired now1 v). rewrite Hlive. simpl.
  by destruct (IsList v).
Qed.

Lemma Push_unserializable now1 now2 key item s :
  Stringify json_Marshal item = None →
  Push json_Marshal now1 now2 key item s = (s, Some ErrMarshalFailed).
Proof. intros H. unfold Push. by rewrite H. Qed.

Lemma Set_ok now key value ttlSeconds s str :
  0 ≤ ttlSeconds →
  Stringify json_Marshal value = Some str →
  Set_ json_Marshal now key value ttlSeconds s =
    (store_put key
       {| Val := str;
          TTL := (if 0 <? ttlSeconds then now + seconds ttlSeconds else 0);
          IsList := false; List := [] |} s,
     None).
Proof.
  intros Httl Hstr. unfold Set_.
  assert ((ttlSeconds <? 0) = false) as -> by lia.
  by rewrite Hstr.
Qed.

End Operations.

(** The locked path deletes when the first reading is at or after a
    non-zero expiresAt and the second one is strictly after it. *)
Lemma Get_past now1 now2 key s v :
  data s !! key = Some v →
  TTL v ≠ 0 →
  TTL v ≤ now1 →
  TTL v < now2 →
  Get now1 now2 key s = (store_delete key s, ("", Some ErrKeyNotFound)).
Proof.
  intros H Hnz Hle Hlt. unfold Get. rewrite H.
  assert (time.IsZero (TTL v) || time.Before now1 (TTL v) = false) as ->.
  { unfold time.IsZero, time.Before. apply orb_false_iff. lia. }
  assert (negb (time.IsZero (TTL v)) && time.After now2 (TTL v) = true) as ->.
  { unfold time.IsZero, time.After. apply andb_true_iff.
    rewrite negb_true_iff. lia. }
  reflexivity.
Qed.

(** * The claims *)

(** ** C1: when an entry counts as expired *)

(** C1, as the code has it.  The test that deletes an entry, which
    Update, Pop, Push and the locked path of Get apply, holds exactly
    when expiresAt is non-zero and the current instant is strictly
    after it; an entry whose expiresAt is zero is never expired.  So,
    on any entry, Pop and Update (with a value that Stringify accepts)
    fail with KeyNotFound exactly then, and Push of such a value on a
    scalar entry fails with TypeMismatch exactly otherwise.  Get
    reads the clock twice.  It serves an entry when expiresAt is zero,
    or the first reading is strictly before expiresAt, or the second
    reading is at or before expiresAt; in the one remaining case, the
    first reading at or after expiresAt and the second strictly after
    it, Get fails with KeyNotFound and deletes the entry.  So, for a key
    set with [ttlSeconds = t > 0], Get returns the stored string at
    every instant strictly before expiresAt and fails with KeyNotFound
    at every instant strictly after it; at the boundary instant, first
    reading equal to expiresAt, Get fails with KeyNotFound as soon as
    the clock has moved on by the second reading, and returns the
    string only when the second reading is expiresAt too.  Update, Pop
    and Push at the boundary instant still find the entry live: Update
    succeeds, and Pop and Push report TypeMismatch on the scalar. *)
Theorem expiry_is_strictly_after {Other : Type}
    (json_Marshal : Other → option string)
    (now0 : time.Time) (key : string) (value : any Other) (t : Z)
    (s : MemoryStore) (str : string) :
  clock_reading now0 →
  0 < t →
  Stringify json_Marshal value = Some str →
  let s' := (Set_ json_Marshal now0 key value t s).1 in
  let expiresAt := now0 + seconds t in
  data s' !! key =
    Some {| Val := str; TTL := expiresAt; IsList := false; List := [] |} ∧
  expiresAt ≠ 0 ∧
  (∀ now v, expired now v = true ↔ TTL v ≠ 0 ∧ TTL v < now) ∧
  (∀ now1 now2 k s0 v,
     data s0 !! k = Some v →
     (TTL v = 0 → expired now2 v = false) ∧
     (TTL v = 0 ∨ now1 < TTL v ∨ now2 ≤ TTL v →
      Get now1 now2 k s0 =
        (s0, if IsList v then ("", Some ErrTypeMismatch)
             else (Val v, None))) ∧
     (TTL v ≠ 0 → TTL v ≤ now1 → TTL v < now2 →
      Get now1 now2 k s0 =
        (store_delete k s0, ("", Some ErrKeyNotFound)))) ∧
  (∀ now k s0 v,
     data s0 !! k = Some v →
     ((Pop now k s0).2.2 = Some ErrKeyNotFound ↔ TTL v ≠ 0 ∧ TTL v < now) ∧
     (∀ value' str',
        Stringify json_Marshal value' = Some str' →
        ((Update json_Marshal now k value' s0).2 = Some ErrKeyNotFound ↔
         TTL v ≠ 0 ∧ TTL v < now)) ∧
     (∀ now2 item str',
        Stringify json_Marshal item = Some str' →
        IsList v = false →
        ((Push json_Marshal now now2 k item s0).2 = Some ErrTypeMismatch ↔
         ¬ (TTL v ≠ 0 ∧ TTL v < now)))) ∧
  (∀ now1 now2,
     (now1 < expiresAt ∨ now2 ≤ expiresAt →
      Get now1 now2 key s' = (s', (str, None))) ∧
     (expiresAt ≤ now1 → expiresAt < now2 →
      Get now1 now2 key s' =
        (store_delete key s', ("", Some ErrKeyNotFound)))) ∧
  (∀ now2,
     expiresAt < now2 →
     Get expiresAt now2 key s' =
       (store_delete key s', ("", Some ErrKeyNotFound))) ∧
  Get expiresAt expiresAt key s' = (s', (str, None)) ∧
  (∀ now value' str',
     Stringify json_Marshal value' = Some str' →
     (now ≤ expiresAt →
      (Update json_Marshal now key value' s').2 = None) ∧
     (expiresAt < now →
      Update json_Marshal now key value' s' =
        (store_delete key s', Some ErrKeyNotFound))) ∧
  (∀ now,
     (now ≤ expiresAt → Pop now key s' = (s', ("", Some ErrTypeMismatch))) ∧
     (expiresAt < now →
      Pop now key s' = (store_delete key s', ("", Some ErrKeyNotFound)))) ∧
  (∀ now1 now2 item str',
     Stringify json_Marshal item = Some str' →
     now1 ≤ expiresAt →
     Push json_Marshal now1 now2 key item s' = (s', Some ErrTypeMismatch)).
Proof.
  intros Hclock Ht Hstr s' expiresAt.
  assert (Hnz : expiresAt ≠ 0).
  { unfold expiresAt, clock_reading in *.
    pose proof (wrap64_range (t * time.Second)). unfold seconds. lia. }
  set (e := {| Val := str; TTL := expiresAt; IsList := false; List := [] |}).
  assert (Hs' : s' = store_put key e s).
  { unfold s'. rewrite (Set_ok _ _ _ _ _ _ str) by (lia || done).
    assert ((0 <? t) = true) as -> by lia. reflexivity. }
  assert (Hlook : data s' !! key = Some e).
  { rewrite Hs'. apply store_put_lookup. }
  assert (Hlive : ∀ now, now ≤ expiresAt → expired now e = false)
    by (intros; apply expired_false_iff; simpl; by right).
  assert (Hdead : ∀ now, expiresAt < now → expired now e = true)
    by (intros; apply expired_true_iff; simpl; by split).
  assert (Hserve : ∀ now1 now2 k s0 v,
    data s0 !! k = Some v →
    TTL v = 0 ∨ now1 < TTL v ∨ now2 ≤ TTL v →
    Get now1 now2 k s0 =
      (s0, if IsList v then ("", Some ErrTypeMismatch) else (Val v, None))).
  { intros now1 now2 k s0 v Hv [Hz | [Hlt | Hle]].
    - apply Get_live; [done|]. apply expired_false_iff. by left.
    - by apply Get_before.
    - apply Get_live; [done|]. apply expired_false_iff. by right. }
  split; [exact Hlook|]. split; [exact Hnz|].
  split; [exact expired_true_iff|].
  split.
  { intros now1 now2 k s0 v Hv. split; [|split].
    - intros Hz. apply expired_false_iff. by left.
    - by apply Hserve.
    - by apply Get_past. }
  split.
  { intros now k s0 v Hv. split; [|split].
    - rewrite <- expired_true_iff, (Pop_present _ _ _ _ Hv).
      destruct (expired now v); [by split|].
      destruct (IsList v); simpl; [|by split].
      destruct (List v); by split.
    - intros value' str' Hstr'.
      rewrite <- expired_true_iff, (Update_present _ _ _ _ _ _ _ Hstr' Hv).
      destruct (expired now v); [by split|].
      destruct (IsList v); by split.
    - intros now2 item str' Hstr' Hscalar.
      rewrite <- expired_true_iff.
      destruct (expired now v) eqn:Hexp.
      + rewrite (Push_fresh json_Marshal _ _ _ _ _ str') by eauto.
        simpl. split; [discriminate|]. intros H. by destruct H.
      + rewrite (Push_live _ _ _ _ _ _ _ _ Hstr' Hv Hexp), Hscalar.
        simpl. split; [discriminate|done]. }
  split.
  { intros now1 now2. split.
    - intros H. apply (Hserve now1 now2 key s' e Hlook). simpl. tauto.
    - intros H1 H2. by apply (Get_past now1 now2 key s' e). }
  split.
  { intros now2 H. apply (Get_past expiresAt now2 key s' e); simpl;
      (done || lia). }
  split.
  { apply (Hserve expiresAt expiresAt key s' e Hlook). simpl. lia. }
  split.
  { intros now value' str' Hstr'.
    rewrite (Update_present _ _ _ _ _ _ _ Hstr' Hlook). split.
    - intros H. by rewrite Hlive.
    - intros H. by rewrite Hdead. }
  split.
  { intros now. rewrite (Pop_present _ _ _ _ Hlook). split.
    - intros H. by rewrite Hlive.
    - intros H. by rewrite Hdead. }
  intros now1 now2 item str' Hstr' H.
  by rewrite (Push_live _ _ _ _ _ _ _ _ Hstr' Hlook (Hlive _ H)).
Qed.

Lemma expiry_is_strictly_after_witness :
  clock_reading t2025 ∧ 0 < 1 ∧
  Stringify marshal (any_string "v") = Some "v" ∧
  Get (t2025 + 1000000000) (t2025 + 1000000001) "k"
      (Set_ marshal t2025 "k" (any_string "v") 1 NewMemoryStore).1
    = (store_delete "k"
         (Set_ marshal t2025 "k" (any_string "v") 1 NewMemoryStore).1,
       ("", Some ErrKeyNotFound)) ∧
  Get (t2025 + 1000000000) (t2025 + 1000000000) "k"
      (Set_ marshal t2025 "k" (any_string "v") 1 NewMemoryStore).1
    = ((Set_ marshal t2025 "k" (any_string "v") 1 NewMemoryStore).1,
       ("v", None)).
Proof.
  assert (Hc : clock_reading t2025) by (unfold clock_reading, t2025; lia).
  assert (Ht : 0 < 1) by lia.
  assert (Hs : Stringify marshal (any_string "v") = Some "v") by reflexivity.
  split; [exact Hc|]. split; [exact Ht|]. split; [exact Hs|].
  destruct (expiry_is_strictly_after marshal t2025 "k" (any_string "v") 1
              NewMemoryStore "v" Hc Ht Hs)
    as (_ & _ & _ & _ & _ & _ & Hrun & Hsame & _).
  split.
  - apply (Hrun (t2025 + 1000000001)). vm_compute. reflexivity.
  - exact Hsame.
Defined.

(** C1 as it is stated fails at the boundary instant, where it takes the
    entry for expired.  When the clock reads exactly expiresAt, Update
    on a key set for one second still succeeds and Pop still reports
    TypeMismatch, not KeyNotFound; and Get still returns the value when
    its two clock readings both give that instant. *)
Lemma Get_at_expiresAt_counterexample :
  let s := (Set_ marshal t2025 "k" (any_string "v") 1 NewMemoryStore).1 in
  let now := t2025 + 1000000000 in
  (∃ v, data s !! "k" = Some v ∧ TTL v ≠ 0 ∧ TTL v ≤ now) ∧
  Get now now "k" s = (s, ("v", None)) ∧
  (Get now now "k" s).2 ≠ ("", Some ErrKeyNotFound) ∧
  (Update marshal now "k" (any_string "w") s).2 = None ∧
  Pop now "k" s = (s, ("", Some ErrTypeMismatch)).
Proof.
  intros s now. split.
  - exists {| Val := "v"; TTL := now; IsList := false; List := [] |}.
    split; [reflexivity|]. split; vm_compute; discriminate.
  - split; [reflexivity|]. split; [discriminate|].
    split; reflexivity.
Qed.

(** ** C2: lazy expiration *)

(** C2, as the code has it.  For a key whose entry has a non-zero
    expiresAt in the past, Get, Pop, and Update with a value that
    Stringify accepts each fail with KeyNotFound and delete the entry;
    a second access by any of them, at any instant, fails with
    KeyNotFound again and leaves the key absent.  Update with a value
    that Stringify rejects fails with the marshalling error before the
    key is looked at, and the expired entry stays in the map. *)
Theorem expired_entry_is_gone {Other : Type}
    (json_Marshal : Other → option string)
    (now1 now2 : time.Time) (key : string) (s : MemoryStore) (v : Value) :
  data s !! key = Some v →
  TTL v ≠ 0 →
  TTL v < now1 →
  now1 ≤ now2 →
  let s' := store_delete key s in
  Get now1 now2 key s = (s', ("", Some ErrKeyNotFound)) ∧
  Pop now1 key s = (s', ("", Some ErrKeyNotFound)) ∧
  (∀ value str,
     Stringify json_Marshal value = Some str →
     Update json_Marshal now1 key value s = (s', Some ErrKeyNotFound)) ∧
  (∀ value,
     Stringify json_Marshal value = None →
     Update json_Marshal now1 key value s = (s, Some ErrMarshalFailed)) ∧
  data s' !! key = None ∧
  (∀ now3 now4, Get now3 now4 key s' = (s', ("", Some ErrKeyNotFound))) ∧
  (∀ now3, Pop now3 key s' = (s', ("", Some ErrKeyNotFound))) ∧
  (∀ now3 value str,
     Stringify json_Marshal value = Some str →
     Update json_Marshal now3 key value s' = (s', Some ErrKeyNotFound)).
Proof.
  intros Hv Hnz Hpast Hle s'.
  assert (Hexp : expired now1 v = true) by (by apply expired_true_iff).
  assert (Hgone : data s' !! key = None) by apply store_delete_lookup.
  repeat split.
  - by apply (Get_expired now1 now2 key s v).
  - rewrite (Pop_present _ _ _ _ Hv). by rewrite Hexp.
  - intros value str Hstr.
    rewrite (Update_present _ _ _ _ _ _ _ Hstr Hv). by rewrite Hexp.
  - intros value Hstr. by apply Update_unserializable.
  - exact Hgone.
  - intros now3 now4. by apply Get_absent.
  - intros now3. by apply Pop_absent.
  - intros now3 value str Hstr.
    rewrite (Update_absent _ _ _ _ _ Hgone). by rewrite Hstr.
Qed.

Lemma expired_entry_is_gone_witness :
  data one_second_store !! "k" = Some one_second_entry ∧
  TTL one_second_entry ≠ 0 ∧
  TTL one_second_entry < t2025 + 2000000000 ∧
  t2025 + 2000000000 ≤ t2025 + 2000000000 ∧
  Get (t2025 + 2000000000) (t2025 + 2000000000) "k" one_second_store =
    (store_delete "k" one_second_store, ("", Some ErrKeyNotFound)).
Proof.
  assert (H1 : data one_second_store !! "k" = Some one_second_entry)
    by reflexivity.
  assert (H2 : TTL one_second_entry ≠ 0) by (vm_compute; discriminate).
  assert (H3 : TTL one_second_entry < t2025 + 2000000000)
    by (vm_compute; reflexivity).
  assert (H4 : t2025 + 2000000000 ≤ t2025 + 2000000000) by lia.
  split; [exact H1|]. split; [exact H2|]. split; [exact H3|].
  split; [exact H4|].
  exact (proj1 (expired_entry_is_gone marshal _ _ "k" one_second_store
                  one_second_entry H1 H2 H3 H4)).
Defined.

(** C2 as it is stated fails for Update: on an expired entry, an Update
    whose value cannot be marshalled returns the marshalling error, not
    KeyNotFound, and does not delete the entry. *)
Lemma Update_expired_unserializable_counterexample :
  let now := t2025 + 2000000000 in
  data one_second_store !! "k" = Some one_second_entry ∧
  TTL one_second_entry ≠ 0 ∧ TTL one_second_entry < now ∧
  Update marshal now "k" (any_other go_chan) one_second_store =
    (one_second_store, Some ErrMarshalFailed) ∧
  (Update marshal now "k" (any_other go_chan) one_second_store).2 ≠
    Some ErrKeyNotFound ∧
  data (Update marshal now "k" (any_other go_chan) one_second_store).1 !! "k"
    = Some one_second_entry.
Proof.
  intros now. split; [reflexivity|].
  split; [vm_compute; discriminate|]. split; [vm_compute; reflexivity|].
  split; [reflexivity|]. split; [discriminate|reflexivity].
Qed.

(** ** C3: Set followed by Get *)



(** ** C4: the list is a stack *)

(** C4.  On a key that is absent, expired, or holds an empty list that
    never expires, pushing "a", "b" and "c" and then popping four times
    returns "c", "b", "a" and then fails with EmptyList, whatever the
    clock reads at each step.  In general a successful Push on a live
    list puts the serialized item at index 0, and a Pop on a live
    non-empty list removes and returns the element at index 0. *)
Theorem Push_Pop_LIFO {Other : Type}
    (json_Marshal : Other → option string)
    (clock : nat → time.Time) (key : string) (s : MemoryStore) :
  (data s !! key = None ∨
   ∃ v, data s !! key = Some v ∧
        (expired (clock 0%nat) v = true ∨
         (IsList v = true ∧ List v = [] ∧ TTL v = 0 ∧ Val v = ""))) →
  let list_of l :=
    {| Val := ""; TTL := time.zero; IsList := true; List := l |} in
  let push i x st :=
    Push json_Marshal (clock i) (clock (S i)) key (any_string x) st in
  push 0%nat "a" s = (store_put key (list_of ["a"]) s, None) ∧
  push 2%nat "b" (store_put key (list_of ["a"]) s) =
    (store_put key (list_of ["b"; "a"]) s, None) ∧
  push 4%nat "c" (store_put key (list_of ["b"; "a"]) s) =
    (store_put key (list_of ["c"; "b"; "a"]) s, None) ∧
  Pop (clock 6%nat) key (store_put key (list_of ["c"; "b"; "a"]) s) =
    (store_put key (list_of ["b"; "a"]) s, ("c", None)) ∧
  Pop (clock 7%nat) key (store_put key (list_of ["b"; "a"]) s) =
    (store_put key (list_of ["a"]) s, ("b", None)) ∧
  Pop (clock 8%nat) key (store_put key (list_of ["a"]) s) =
    (store_put key (list_of []) s, ("a", None)) ∧
  Pop (clock 9%nat) key (store_put key (list_of []) s) =
    (store_put key (list_of []) s, ("", Some ErrEmptyList)) ∧
  (∀ now1 now2 st v item str,
     data st !! key = Some v → expired now1 v = false → IsList v = true →
     Stringify json_Marshal item = Some str →
     Push json_Marshal now1 now2 key item st =
       (store_put key (set_List v (str :: List v)) st, None)) ∧
  (∀ now st v x l,
     data st !! key = Some v → expired now v = false → IsList v = true →
     List v = x :: l →
     Pop now key st = (store_put key (set_List v l) st, (x, None))).
Proof.
  intros Hinit list_of push.
  assert (Hput : ∀ l l', store_put key (list_of l') (store_put key (list_of l) s)
                         = store_put key (list_of l') s).
  { intros l l'. apply store_eq; simpl. apply insert_insert_eq. }
  assert (Hpush : ∀ i x l,
    push i x (store_put key (list_of l) s) =
      (store_put key (list_of (x :: l)) s, None)).
  { intros i x l. unfold push.
    rewrite (Push_live json_Marshal _ _ key (any_string x) _ (list_of l) x);
      [simpl; by rewrite Hput | reflexivity | apply store_put_lookup
      | apply expired_false_iff; by left]. }
  assert (Hpop : ∀ now x l,
    Pop now key (store_put key (list_of (x :: l)) s) =
      (store_put key (list_of l) s, (x, None))).
  { intros now x l.
    rewrite (Pop_present now key _ (list_of (x :: l)))
      by apply store_put_lookup.
    simpl. by rewrite Hput. }
  split.
  { destruct Hinit as [Hnone | (v & Hv & [Hexp | (Hl & Hnil & Hz & Hval)])].
    - unfold push. rewrite (Push_fresh json_Marshal _ _ key _ s "a"); eauto.
    - unfold push. rewrite (Push_fresh json_Marshal _ _ key _ s "a"); eauto.
    - unfold push.
      rewrite (Push_live json_Marshal _ _ key (any_string "a") s v "a");
        [ | reflexivity | exact Hv | apply expired_false_iff; by left].
      rewrite Hl. do 2 f_equal. destruct v; simpl in *. by subst. }
  split; [apply Hpush|]. split; [apply Hpush|].
  split; [apply Hpop|]. split; [apply Hpop|]. split; [apply Hpop|].
  split.
  { by rewrite (Pop_present _ key _ (list_of [])) by apply store_put_lookup. }
  split.
  - intros now1 now2 st v item str Hv Hlive Hl Hstr.
    rewrite (Push_live json_Marshal _ _ _ _ _ _ _ Hstr Hv Hlive).
    by rewrite Hl.
  - intros now st v x l Hv Hlive Hl Hlist.
    rewrite (Pop_present _ _ _ _ Hv). by rewrite Hlive, Hl, Hlist.
Qed.

Lemma Push_Pop_LIFO_witness :
  (data NewMemoryStore !! "k" = None ∨
   ∃ v, data NewMemoryStore !! "k" = Some v ∧
        (expired t2025 v = true ∨
         (IsList v = true ∧ List v = [] ∧ TTL v = 0 ∧ Val v = ""))) ∧
  Pop t2025 "k"
    (store_put "k"
       {| Val := ""; TTL := time.zero; IsList := true;
          List := ["c"; "b"; "a"] |} NewMemoryStore) =
  (store_put "k"
     {| Val := ""; TTL := time.zero; IsList := true; List := ["b"; "a"] |}
     NewMemoryStore, ("c", None)).
Proof.
  assert (H : data NewMemoryStore !! "k" = None ∨
    ∃ v, data NewMemoryStore !! "k" = Some v ∧
         (expired t2025 v = true ∨
          (IsList v = true ∧ List v = [] ∧ TTL v = 0 ∧ Val v = "")))
    by (left; reflexivity).
  split; [exact H|].
  exact (proj1 (proj2 (proj2 (proj2
    (Push_Pop_LIFO marshal (λ _, t2025) "k" NewMemoryStore H))))).
Defined.

(** ** C5: Push on an absent, expired or scalar key *)

(** C5, as the code has it.  For an item that Stringify accepts: on a
    key that is absent, or whose entry is expired (of either kind), Push
    succeeds, replaces whatever the key held by a list entry whose only
    element is the serialized item, and that entry has a zero expiresAt,
    so it is never expired; Push fails with TypeMismatch exactly when
    the key holds an unexpired scalar entry, and then the store is
    unchanged.  For an item that Stringify rejects, Push fails with the
    marshalling error whatever the key holds, and the store is
    unchanged. *)
Theorem Push_creates_list {Other : Type}
    (json_Marshal : Other → option string)
    (now1 now2 : time.Time) (key : string) (item : any Other)
    (s : MemoryStore) :
  (∀ str,
     Stringify json_Marshal item = Some str →
     let created :=
       {| Val := ""; TTL := time.zero; IsList := true; List := [str] |} in
     ((data s !! key = None ∨
       ∃ v, data s !! key = Some v ∧ expired now1 v = true) →
      Push json_Marshal now1 now2 key item s = (store_put key created s, None) ∧
      data (store_put key created s) !! key = Some created ∧
      ∀ now, expired now created = false) ∧
     ((Push json_Marshal now1 now2 key item s).2 = Some ErrTypeMismatch ↔
      ∃ v, data s !! key = Some v ∧ expired now1 v = false ∧
           IsList v = false) ∧
     ((Push json_Marshal now1 now2 key item s).2 = Some ErrTypeMismatch →
      (Push json_Marshal now1 now2 key item s).1 = s)) ∧
  (Stringify json_Marshal item = None →
   Push json_Marshal now1 now2 key item s = (s, Some ErrMarshalFailed)).
Proof.
  split; [|apply Push_unserializable].
  intros str Hstr created. split; [|split].
  - intros Hfresh. split; [by apply Push_fresh|].
    split; [apply store_put_lookup|].
    intros now. apply expired_false_iff. by left.
  - destruct (data s !! key) as [v|] eqn:Hv.
    + destruct (expired now1 v) eqn:Hexp.
      * rewrite (Push_fresh json_Marshal _ _ _ _ _ str) by eauto.
        simpl. split; [discriminate|].
        intros (v' & Hv' & Hlive & _). congruence.
      * rewrite (Push_live json_Marshal _ _ _ _ _ _ _ Hstr Hv Hexp).
        destruct (IsList v) eqn:Hl; simpl.
        -- split; [discriminate|].
           intros (v' & Hv' & _ & Hl'). congruence.
        -- split; [eauto|done].
    + rewrite (Push_fresh json_Marshal _ _ _ _ _ str) by eauto.
      simpl. split; [discriminate|]. intros (v' & Hv' & _). discriminate.
  - destruct (data s !! key) as [v|] eqn:Hv.
    + destruct (expired now1 v) eqn:Hexp.
      * rewrite (Push_fresh json_Marshal _ _ _ _ _ str) by eauto.
        discriminate.
      * rewrite (Push_live json_Marshal _ _ _ _ _ _ _ Hstr Hv Hexp).
        by destruct (IsList v).
    + rewrite (Push_fresh json_Marshal _ _ _ _ _ str) by eauto.
      discriminate.
Qed.

Lemma Push_creates_list_witness :
  (data one_second_store !! "k" = None ∨
   ∃ v, data one_second_store !! "k" = Some v ∧
        expired (t2025 + 2000000000) v = true) ∧
  Push marshal (t2025 + 2000000000) (t2025 + 2000000000) "k"
    (any_other (go_bool true)) one_second_store =
  (store_put "k"
     {| Val := ""; TTL := time.zero; IsList := true; List := ["true"] |}
     one_second_store, None).
Proof.
  assert (H : data one_second_store !! "k" = None ∨
    ∃ v, data one_second_store !! "k" = Some v ∧
         expired (t2025 + 2000000000) v = true).
  { right. exists one_second_entry. split; reflexivity. }
  split; [exact H|].
  exact (proj1 (proj1 (proj1
    (Push_creates_list marshal (t2025 + 2000000000) (t2025 + 2000000000)
       "k" (any_other (go_bool true)) one_second_store)
    "true" eq_refl) H)).
Defined.

(** C5 as it is stated fails for an item that cannot be marshalled: on
    an absent key Push does not succeed, and on an unexpired scalar
    entry it fails with the marshalling error, not with TypeMismatch. *)
Lemma Push_unserializable_counterexample :
  data NewMemoryStore !! "k" = None ∧
  Push marshal t2025 t2025 "k" (any_other go_chan) NewMemoryStore =
    (NewMemoryStore, Some ErrMarshalFailed) ∧
  data one_second_store !! "k" = Some one_second_entry ∧
  expired t2025 one_second_entry = false ∧
  IsList one_second_entry = false ∧
  Push marshal t2025 t2025 "k" (any_other go_chan) one_second_store =
    (one_second_store, Some ErrMarshalFailed) ∧
  (Push marshal t2025 t2025 "k" (any_other go_chan) one_second_store).2 ≠
    Some ErrTypeMismatch.
Proof. repeat split; (reflexivity || discriminate). Qed.

(** ** C6: Set *)

(** What Set does for every [ttlSeconds] whose count of nanoseconds fits
    in an [int64]. *)
Lemma Set_in_range {Other : Type} (json_Marshal : Other → option string)
    (now : time.Time) (key : string) (value : any Other) (ttlSeconds : Z)
    (s : MemoryStore) :
  ((Set_ json_Marshal now key value ttlSeconds s).2 = Some ErrInvalidTTL ↔
   ttlSeconds < 0) ∧
  (ttlSeconds < 0 →
   Set_ json_Marshal now key value ttlSeconds s = (s, Some ErrInvalidTTL)) ∧
  (∀ s', Set_ json_Marshal now key value ttlSeconds s = (s', None) →
     ∃ str expiresAt,
       Stringify json_Marshal value = Some str ∧
       s' = store_put key
              {| Val := str; TTL := expiresAt; IsList := false; List := [] |} s ∧
       (ttlSeconds = 0 → expiresAt = 0) ∧
       (0 < ttlSeconds ≤ 9223372036 →
        expiresAt = now + ttlSeconds * 1000000000)).
Proof.
  unfold Set_. destruct (Z.ltb_spec ttlSeconds 0) as [Hneg | Hpos].
  - split; [simpl; tauto|]. split; [done|]. intros s' [=].
  - split; [|split; [lia|]].
    + destruct (Stringify json_Marshal value); simpl;
        (split; [discriminate | lia]).
    + intros s' Hset.
      destruct (Stringify json_Marshal value) as [str|]; [|discriminate].
      injection Hset as <-. eexists str, _. split; [reflexivity|].
      split; [reflexivity|]. split.
      * intros ->. reflexivity.
      * intros Hr. assert ((0 <? ttlSeconds) = true) as -> by lia.
        unfold time.Add. rewrite seconds_exact by lia. reflexivity.
Qed.

(** C6 at a [ttlSeconds] beyond 9223372036: the product with
    [time.Second] wraps around to a negative duration, so the entry is
    stored with an expiresAt more than 292 years before [now] instead of
    [now + ttlSeconds], and a Get at the very instant of the Set already
    fails with KeyNotFound. *)
Theorem Set_ttl_overflow :
  let r := Set_ marshal t2025 "k" (any_string "v") 9223372037 NewMemoryStore in
  r.2 = None ∧
  data r.1 !! "k" =
    Some {| Val := "v"; TTL := t2025 - 9223372036709551616;
            IsList := false; List := [] |} ∧
  t2025 - 9223372036709551616 ≠ t2025 + 9223372037 * 1000000000 ∧
  t2025 - 9223372036709551616 < t2025 ∧
  Get t2025 t2025 "k" r.1 = (NewMemoryStore, ("", Some ErrKeyNotFound)).
Proof.
  intros r. split; [reflexivity|]. split; [reflexivity|].
  split; [vm_compute; discriminate|]. split; [vm_compute; reflexivity|].
  vm_compute. reflexivity.
Qed.

(** ** C7: Update keeps the expiration *)

(** C7.  A successful Update on a key holding a live scalar entry stores
    [Stringify value] as the entry's string and changes nothing else:
    expiresAt, kind and list are those of the old entry, so the entry
    expires at the same instants as before, and every other key maps to
    what it did. *)
Theorem Update_preserves_TTL {Other : Type}
    (json_Marshal : Other → option string)
    (now : time.Time) (key : string) (value : any Other)
    (s s' : MemoryStore) (v : Value) :
  data s !! key = Some v →
  expired now v = false →
  IsList v = false →
  Update json_Marshal now key value s = (s', None) →
  ∃ str,
    Stringify json_Marshal value = Some str ∧
    s' = store_put key (set_Val v str) s ∧
    data s' !! key =
      Some {| Val := str; TTL := TTL v; IsList := IsList v; List := List v |} ∧
    (∀ now', expired now' (set_Val v str) = expired now' v) ∧
    (∀ key', key' ≠ key → data s' !! key' = data s !! key').
Proof.
  intros Hv Hlive Hscalar Hupd.
  destruct (Stringify json_Marshal value) as [str|] eqn:Hstr.
  2:{ rewrite Update_unserializable in Hupd by done. discriminate. }
  rewrite (Update_present _ _ _ _ _ _ _ Hstr Hv), Hlive, Hscalar in Hupd.
  injection Hupd as <-.
  exists str. split; [reflexivity|]. split; [reflexivity|].
  split; [apply store_put_lookup|]. split; [reflexivity|].
  intros key' Hne. by apply store_put_lookup_ne.
Qed.

Lemma Update_preserves_TTL_witness :
  data one_second_store !! "k" = Some one_second_entry ∧
  expired (t2025 + 5) one_second_entry = false ∧
  IsList one_second_entry = false ∧
  Update marshal (t2025 + 5) "k" (any_string "y") one_second_store =
    (store_put "k" (set_Val one_second_entry "y") one_second_store, None) ∧
  ∃ str,
    Stringify marshal (any_string "y") = Some str ∧
    data (store_put "k" (set_Val one_second_entry "y") one_second_store) !! "k"
      = Some {| Val := str; TTL := t2025 + 1000000000;
                IsList := false; List := [] |}.
Proof.
  assert (H1 : data one_second_store !! "k" = Some one_second_entry)
    by reflexivity.
  assert (H2 : expired (t2025 + 5) one_second_entry = false) by reflexivity.
  assert (H3 : IsList one_second_entry = false) by reflexivity.
  assert (H4 : Update marshal (t2025 + 5) "k" (any_string "y") one_second_store =
    (store_put "k" (set_Val one_second_entry "y") one_second_store, None))
    by reflexivity.
  split; [exact H1|]. split; [exact H2|]. split; [exact H3|].
  split; [exact H4|].
  destruct (Update_preserves_TTL marshal _ _ _ _ _ _ H1 H2 H3 H4)
    as (str & Hstr & _ & Hlook & _).
  exists str. split; [exact Hstr|exact Hlook].
Defined.

(** ** C8: failures *)

(** C8.  An operation that fails returns one of the five sentinel errors
    (and the empty string, when it returns a string), and it leaves the
    store as it was, except that a KeyNotFound raised on an expired
    entry comes with the deletion of that entry, which is the whole of
    lazy expiration and never part of a write.  When Stringify fails
    inside Set (reached when the ttl is not negative), Update or Push,
    the operation returns the marshalling error and the store is
    unchanged: no entry is created or modified. *)
Theorem failure_is_atomic {Other : Type}
    (json_Marshal : Other → option string) :
  let kept now key (s s' : MemoryStore) (e : error) :=
    s' = s ∨
    (e = ErrKeyNotFound ∧ s' = store_delete key s ∧
     ∃ v, data s !! key = Some v ∧ expired now v = true) in
  (∀ now key value ttl s s' e,
     Set_ json_Marshal now key value ttl s = (s', Some e) →
     s' = s ∧
     (e = ErrInvalidTTL ∧ ttl < 0 ∨
      e = ErrMarshalFailed ∧ Stringify json_Marshal value = None)) ∧
  (∀ now1 now2 key s s' r e,
     Get now1 now2 key s = (s', (r, Some e)) →
     r = "" ∧ (e = ErrKeyNotFound ∨ e = ErrTypeMismatch) ∧
     kept now2 key s s' e) ∧
  (∀ now key value s s' e,
     Update json_Marshal now key value s = (s', Some e) →
     (e = ErrKeyNotFound ∨ e = ErrTypeMismatch ∨ e = ErrMarshalFailed) ∧
     kept now key s s' e) ∧
  (∀ key s s' e,
     Remove key s = (s', Some e) → e = ErrKeyNotFound ∧ s' = s) ∧
  (∀ now1 now2 key item s s' e,
     Push json_Marshal now1 now2 key item s = (s', Some e) →
     (e = ErrTypeMismatch ∨ e = ErrMarshalFailed) ∧ s' = s) ∧
  (∀ now key s s' r e,
     Pop now key s = (s', (r, Some e)) →
     r = "" ∧
     (e = ErrKeyNotFound ∨ e = ErrTypeMismatch ∨ e = ErrEmptyList) ∧
     kept now key s s' e) ∧
  (∀ value,
     Stringify json_Marshal value = None →
     (∀ now key ttl s, 0 ≤ ttl →
        Set_ json_Marshal now key value ttl s = (s, Some ErrMarshalFailed)) ∧
     (∀ now key s,
        Update json_Marshal now key value s = (s, Some ErrMarshalFailed)) ∧
     (∀ now1 now2 key s,
        Push json_Marshal now1 now2 key value s = (s, Some ErrMarshalFailed))).
Proof.
  intros kept. unfold kept. repeat apply conj.
  - intros now key value ttl s s' e. unfold Set_.
    destruct (Z.ltb_spec ttl 0).
    + intros [= <- <-]. auto.
    + destruct (Stringify json_Marshal value); intros [= <- <-]. auto.
  - intros now1 now2 key s s' r e. unfold Get.
    destruct (data s !! key) as [v|] eqn:Hv; [|intros [= <- <- <-]; auto].
    fold (expired now2 v).
    destruct (time.IsZero (TTL v) || time.Before now1 (TTL v)).
    + destruct (IsList v); intros [= <- <- <-]. auto.
    + destruct (expired now2 v) eqn:Hexp; [intros [= <- <- <-]; eauto 10|].
      destruct (IsList v); intros [= <- <- <-]. auto.
  - intros now key value s s' e. unfold Update.
    destruct (Stringify json_Marshal value); [|intros [= <- <-]; auto].
    destruct (data s !! key) as [v|] eqn:Hv; [|intros [= <- <-]; auto].
    fold (expired now v).
    destruct (expired now v) eqn:Hexp; [intros [= <- <-]; eauto 10|].
    destruct (IsList v); intros [= <- <-]. auto.
  - intros key s s' e. unfold Remove.
    destruct (data s !! key); intros [= <- <-]. auto.
  - intros now1 now2 key item s s' e.
    destruct (Stringify json_Marshal item) as [str|] eqn:Hstr.
    2:{ rewrite Push_unserializable by done. intros [= <- <-]. auto. }
    destruct (data s !! key) as [v|] eqn:Hv.
    + destruct (expired now1 v) eqn:Hexp.
      * rewrite (Push_fresh json_Marshal _ _ _ _ _ str) by eauto.
        discriminate.
      * rewrite (Push_live json_Marshal _ _ _ _ _ _ _ Hstr Hv Hexp).
        destruct (IsList v); intros [= <- <-]. auto.
    + rewrite (Push_fresh json_Marshal _ _ _ _ _ str) by eauto.
      discriminate.
  - intros now key s s' r e.
    destruct (data s !! key) as [v|] eqn:Hv.
    2:{ rewrite Pop_absent by done. intros [= <- <- <-]. auto. }
    rewrite (Pop_present _ _ _ _ Hv).
    destruct (expired now v) eqn:Hexp; [intros [= <- <- <-]; eauto 10|].
    destruct (IsList v); simpl; [|intros [= <- <- <-]; auto].
    destruct (List v); intros [= <- <- <-]. auto.
  - intros value Hstr. repeat apply conj.
    + intros now key ttl s Httl. unfold Set_.
      assert ((ttl <? 0) = false) as -> by lia. by rewrite Hstr.
    + intros now key s. by apply Update_unserializable.
    + intros now1 now2 key s. by apply Push_unserializable.
Qed.

Lemma failure_is_atomic_witness :
  Stringify marshal (any_other go_chan) = None ∧ 0 ≤ 60 ∧
  Set_ marshal t2025 "k" (any_other go_chan) 60 one_second_store =
    (one_second_store, Some ErrMarshalFailed).
Proof.
  assert (H1 : Stringify marshal (any_other go_chan) = None) by reflexivity.
  assert (H2 : 0 ≤ 60) by lia.
  split; [exact H1|]. split; [exact H2|].
  destruct (failure_is_atomic marshal) as (_ & _ & _ & _ & _ & _ & Hser).
  exact (proj1 (Hser (any_other go_chan) H1) t2025 "k" 60 one_second_store H2).
Defined.

(** ** C9: type isolation *)

(** C9, as the code has it.  On a key holding a live list entry, Get
    fails with TypeMismatch, and so does Update with a value that
    Stringify accepts; on a key holding a live scalar entry, Pop fails
    with TypeMismatch, and so does Push with an item that Stringify
    accepts; the store is unchanged each time.  Pop reports TypeMismatch
    on a scalar entry whatever its list field holds, the empty list
    included, so the kind is tested before the length.  Update and Push
    with a value that Stringify rejects fail with the marshalling error
    instead, whatever the kind of the entry. *)
Theorem type_isolation {Other : Type}
    (json_Marshal : Other → option string)
    (now : time.Time) (key : string) (s : MemoryStore) (v : Value) :
  data s !! key = Some v →
  expired now v = false →
  (IsList v = true →
   (∀ now1, Get now1 now key s = (s, ("", Some ErrTypeMismatch))) ∧
   (∀ value str,
      Stringify json_Marshal value = Some str →
      Update json_Marshal now key value s = (s, Some ErrTypeMismatch))) ∧
  (IsList v = false →
   Pop now key s = (s, ("", Some ErrTypeMismatch)) ∧
   (List v = [] → (Pop now key s).2 ≠ ("", Some ErrEmptyList)) ∧
   (∀ now2 item str,
      Stringify json_Marshal item = Some str →
      Push json_Marshal now now2 key item s = (s, Some ErrTypeMismatch))) ∧
  (∀ value,
     Stringify json_Marshal value = None →
     Update json_Marshal now key value s = (s, Some ErrMarshalFailed) ∧
     ∀ now2,
       Push json_Marshal now now2 key value s = (s, Some ErrMarshalFailed)).
Proof.
  intros Hv Hlive. split; [|split].
  - intros Hl. split.
    + intros now1. by rewrite (Get_live _ _ _ _ _ Hv Hlive), Hl.
    + intros value str Hstr.
      by rewrite (Update_present _ _ _ _ _ _ _ Hstr Hv), Hlive, Hl.
  - intros Hl.
    assert (Hpop : Pop now key s = (s, ("", Some ErrTypeMismatch)))
      by (by rewrite (Pop_present _ _ _ _ Hv), Hlive, Hl).
    split; [exact Hpop|]. split.
    + intros _. rewrite Hpop. discriminate.
    + intros now2 item str Hstr.
      by rewrite (Push_live _ _ _ _ _ _ _ _ Hstr Hv Hlive), Hl.
  - intros value Hstr. split.
    + by apply Update_unserializable.
    + intros now2. by apply Push_unserializable.
Qed.

Lemma type_isolation_witness :
  data one_item_store !! "l" = Some one_item_entry ∧
  expired (t2025 + 7) one_item_entry = false ∧
  IsList one_item_entry = true ∧
  Get (t2025 + 6) (t2025 + 7) "l" one_item_store =
    (one_item_store, ("", Some ErrTypeMismatch)).
Proof.
  assert (H1 : data one_item_store !! "l" = Some one_item_entry)
    by reflexivity.
  assert (H2 : expired (t2025 + 7) one_item_entry = false) by reflexivity.
  assert (H3 : IsList one_item_entry = true) by reflexivity.
  split; [exact H1|]. split; [exact H2|]. split; [exact H3|].
  exact (proj1 (proj1 (type_isolation marshal _ "l" _ _ H1 H2) H3)
           (t2025 + 6)).
Defined.

(** C9 as it is stated fails for an Update whose value cannot be
    marshalled, and for such a Push: on a live list entry the Update
    returns the marshalling error, and on a live scalar entry so does
    the Push, instead of TypeMismatch. *)
Lemma Update_list_unserializable_counterexample :
  data one_item_store !! "l" = Some one_item_entry ∧
  IsList one_item_entry = true ∧
  expired t2025 one_item_entry = false ∧
  Update marshal t2025 "l" (any_other go_chan) one_item_store =
    (one_item_store, Some ErrMarshalFailed) ∧
  (Update marshal t2025 "l" (any_other go_chan) one_item_store).2 ≠
    Some ErrTypeMismatch ∧
  data one_second_store !! "k" = Some one_second_entry ∧
  IsList one_second_entry = false ∧
  expired t2025 one_second_entry = false ∧
  (Push marshal t2025 t2025 "k" (any_other go_chan) one_second_store).2 =
    Some ErrMarshalFailed.
Proof. repeat split; (reflexivity || discriminate). Qed.

(** ** C10: Remove *)

(** C10.  Remove never consults the clock: it fails with KeyNotFound
    exactly when the key is absent from the map, leaving the store as it
    was; on a key whose entry is present but already expired it returns
    no error and deletes the entry. *)
Theorem Remove_ignores_expiry (key : string) (s : MemoryStore) :
  ((Remove key s).2 = Some ErrKeyNotFound ↔ data s !! key = None) ∧
  (data s !! key = None → Remove key s = (s, Some ErrKeyNotFound)) ∧
  (∀ v now,
     data s !! key = Some v → TTL v ≠ 0 → TTL v < now →
     expired now v = true ∧
     Remove key s = (store_delete key s, None) ∧
     data (store_delete key s) !! key = None).
Proof.
  unfold Remove. destruct (data s !! key) as [v|] eqn:Hv; simpl.
  - split; [split; discriminate|]. split; [discriminate|].
    intros v' now [= <-] Hnz Hpast.
    split; [by apply expired_true_iff|].
    split; [reflexivity|apply lookup_delete_eq].
  - split; [done|]. split; [done|]. intros v now [=].
Qed.

Lemma Remove_ignores_expiry_witness :
  data one_second_store !! "k" = Some one_second_entry ∧
  TTL one_second_entry ≠ 0 ∧
  TTL one_second_entry < t2025 + 2000000000 ∧
  Remove "k" one_second_store = (store_delete "k" one_second_store, None).
Proof.
  assert (H1 : data one_second_store !! "k" = Some one_second_entry)
    by reflexivity.
  assert (H2 : TTL one_second_entry ≠ 0) by (vm_compute; discriminate).
  assert (H3 : TTL one_second_entry < t2025 + 2000000000)
    by (vm_compute; reflexivity).
  split; [exact H1|]. split; [exact H2|]. split; [exact H3|].
  destruct (Remove_ignores_expiry "k" one_second_store) as (_ & _ & H).
  exact (proj1 (proj2 (H one_second_entry (t2025 + 2000000000) H1 H2 H3))).
Defined.

(** * Further properties of the store *)

(** ** Every operation works on one key *)

Section Frame.

Context {Other : Type} (json_Marshal : Other → option string).
Context (key key' : string) (s : MemoryStore) (Hne : key' ≠ key).

Lemma store_put_frame v : data (store_put key v s) !! key' = data s !! key'.
Proof. apply store_put_lookup_ne. congruence. Qed.

Lemma store_delete_frame : data (store_delete key s) !! key' = data s !! key'.
Proof. simpl. apply lookup_delete_ne. congruence. Qed.

Lemma Set_frame now value ttl :
  data (Set_ json_Marshal now key value ttl s).1 !! key' = data s !! key'.
Proof.
  unfold Set_. destruct (ttl <? 0); [done|].
  destruct (Stringify json_Marshal value); [apply store_put_frame|done].
Qed.

Lemma Get_frame now1 now2 :
  data (Get now1 now2 key s).1 !! key' = data s !! key'.
Proof.
  unfold Get. destruct (data s !! key) as [v|]; [|done].
  destruct (time.IsZero (TTL v) || time.Before now1 (TTL v)).
  - by destruct (IsList v).
  - destruct (negb (time.IsZero (TTL v)) && time.After now2 (TTL v));
      [apply store_delete_frame|by destruct (IsList v)].
Qed.

Lemma Update_frame now value :
  data (Update json_Marshal now key value s).1 !! key' = data s !! key'.
Proof.
  unfold Update. destruct (Stringify json_Marshal value); [|done].
  destruct (data s !! key) as [v|]; [|done].
  destruct (negb (time.IsZero (TTL v)) && time.After now (TTL v));
    [apply store_delete_frame|].
  destruct (IsList v); [done|apply store_put_frame].
Qed.

Lemma Remove_frame : data (Remove key s).1 !! key' = data s !! key'.
Proof.
  unfold Remove. destruct (data s !! key); [apply store_delete_frame|done].
Qed.

Lemma Push_frame now1 now2 item :
  data (Push json_Marshal now1 now2 key item s).1 !! key' = data s !! key'.
Proof.
  destruct (Stringify json_Marshal item) as [str|] eqn:Hstr;
    [|by rewrite Push_unserializable].
  destruct (data s !! key) as [v|] eqn:Hv.
  - destruct (expired now1 v) eqn:Hexp.
    + rewrite (Push_fresh json_Marshal _ _ _ _ _ str) by eauto.
      apply store_put_frame.
    + rewrite (Push_live json_Marshal _ _ _ _ _ _ _ Hstr Hv Hexp).
      destruct (IsList v); [apply store_put_frame|done].
  - rewrite (Push_fresh json_Marshal _ _ _ _ _ str) by eauto.
    apply store_put_frame.
Qed.

Lemma Pop_frame now : data (Pop now key s).1 !! key' = data s !! key'.
Proof.
  unfold Pop. destruct (data s !! key) as [v|]; [|done].
  destruct (negb (time.IsZero (TTL v)) && time.After now (TTL v));
    [apply store_delete_frame|].
  destruct (IsList v); simpl; [|done].
  destruct (List v); [done|apply store_put_frame].
Qed.

End Frame.

Lemma Get_success_keeps_store now1 now2 key s :
  (Get now1 now2 key s).2.2 = None → (Get now1 now2 key s).1 = s.
Proof.
  unfold Get. destruct (data s !! key) as [v|]; [|done].
  destruct (time.IsZero (TTL v) || time.Before now1 (TTL v)).
  - by destruct (IsList v).
  - destruct (negb (time.IsZero (TTL v)) && time.After now2 (TTL v));
      [discriminate|by destruct (IsList v)].
Qed.

(** ** What an operation depends on *)

Lemma Get_depends_on_key now1 now2 key s1 s2 :
  data s1 !! key = data s2 !! key →
  (Get now1 now2 key s1).2 = (Get now1 now2 key s2).2 ∧
  data (Get now1 now2 key s1).1 !! key = data (Get now1 now2 key s2).1 !! key.
Proof.
  intros H. unfold Get. rewrite H.
  destruct (data s2 !! key) as [v|] eqn:Hv; [|split; simpl; rewrite ?lookup_delete_eq, ?lookup_insert_eq; congruence].
  destruct (time.IsZero (TTL v) || time.Before now1 (TTL v)).
  - destruct (IsList v); split; simpl; rewrite ?lookup_delete_eq, ?lookup_insert_eq; congruence.
  - destruct (negb (time.IsZero (TTL v)) && time.After now2 (TTL v));
      [split; simpl; rewrite ?lookup_delete_eq, ?lookup_insert_eq; congruence|].
    destruct (IsList v); split; simpl; rewrite ?lookup_delete_eq, ?lookup_insert_eq; congruence.
Qed.

Lemma Update_depends_on_key {Other : Type}
    (json_Marshal : Other → option string) now key value s1 s2 :
  data s1 !! key = data s2 !! key →
  (Update json_Marshal now key value s1).2 =
    (Update json_Marshal now key value s2).2 ∧
  data (Update json_Marshal now key value s1).1 !! key =
    data (Update json_Marshal now key value s2).1 !! key.
Proof.
  intros H. unfold Update.
  destruct (Stringify json_Marshal value); [|split; simpl; rewrite ?lookup_delete_eq, ?lookup_insert_eq; congruence].
  rewrite H. destruct (data s2 !! key) as [v|] eqn:Hv; [|split; simpl; rewrite ?lookup_delete_eq, ?lookup_insert_eq; congruence].
  destruct (negb (time.IsZero (TTL v)) && time.After now (TTL v)); [split; simpl; rewrite ?lookup_delete_eq, ?lookup_insert_eq; congruence|].
  destruct (IsList v); split; simpl; rewrite ?lookup_delete_eq, ?lookup_insert_eq; congruence.
Qed.

Lemma Pop_depends_on_key now key s1 s2 :
  data s1 !! key = data s2 !! key →
  (Pop now key s1).2 = (Pop now key s2).2 ∧
  data (Pop now key s1).1 !! key = data (Pop now key s2).1 !! key.
Proof.
  intros H. unfold Pop. rewrite H.
  destruct (data s2 !! key) as [v|] eqn:Hv; [|split; simpl; rewrite ?lookup_delete_eq, ?lookup_insert_eq; congruence].
  destruct (negb (time.IsZero (TTL v)) && time.After now (TTL v)); [split; simpl; rewrite ?lookup_delete_eq, ?lookup_insert_eq; congruence|].
  destruct (IsList v); simpl; [|split; simpl; rewrite ?lookup_delete_eq, ?lookup_insert_eq; congruence].
  destruct (List v); split; simpl; rewrite ?lookup_delete_eq, ?lookup_insert_eq; congruence.
Qed.

Lemma Push_depends_on_key {Other : Type}
    (json_Marshal : Other → option string) now1 now2 key item s1 s2 :
  data s1 !! key = data s2 !! key →
  (Push json_Marshal now1 now2 key item s1).2 =
    (Push json_Marshal now1 now2 key item s2).2 ∧
  data (Push json_Marshal now1 now2 key item s1).1 !! key =
    data (Push json_Marshal now1 now2 key item s2).1 !! key.
Proof.
  intros H.
  destruct (Stringify json_Marshal item) as [str|] eqn:Hstr;
    [|rewrite !Push_unserializable by done; split; simpl; rewrite ?lookup_delete_eq, ?lookup_insert_eq; congruence].
  destruct (data s2 !! key) as [v|] eqn:Hv.
  - destruct (expired now1 v) eqn:Hexp.
    + rewrite (Push_fresh json_Marshal _ _ _ _ s1 str) by (try rewrite H; eauto).
      rewrite (Push_fresh json_Marshal _ _ _ _ s2 str) by eauto.
      split; simpl; rewrite ?lookup_delete_eq, ?lookup_insert_eq; congruence.
    + assert (Hv1 : data s1 !! key = Some v) by congruence.
      rewrite (Push_live json_Marshal _ _ _ _ s1 _ _ Hstr Hv1 Hexp).
      rewrite (Push_live json_Marshal _ _ _ _ s2 _ _ Hstr Hv Hexp).
      destruct (IsList v); [split; simpl; rewrite ?lookup_delete_eq, ?lookup_insert_eq; congruence|].
      split; simpl; congruence.
  - rewrite (Push_fresh json_Marshal _ _ _ _ s1 str) by (try rewrite H; eauto).
    rewrite (Push_fresh json_Marshal _ _ _ _ s2 str) by eauto.
    split; simpl; rewrite ?lookup_delete_eq, ?lookup_insert_eq; congruence.
Qed.

Lemma Set_depends_on_key {Other : Type}
    (json_Marshal : Other → option string) now key value ttl s1 s2 :
  (Set_ json_Marshal now key value ttl s1).2 =
    (Set_ json_Marshal now key value ttl s2).2 ∧
  (data s1 !! key = data s2 !! key →
   data (Set_ json_Marshal now key value ttl s1).1 !! key =
     data (Set_ json_Marshal now key value ttl s2).1 !! key).
Proof.
  unfold Set_. destruct (ttl <? 0); [done|].
  destruct (Stringify json_Marshal value); [|done].
  split; [done|]. intros _. simpl. by rewrite !lookup_insert_eq.
Qed.

Lemma Remove_depends_on_key key s1 s2 :
  data s1 !! key = data s2 !! key →
  (Remove key s1).2 = (Remove key s2).2 ∧
  data (Remove key s1).1 !! key = data (Remove key s2).1 !! key.
Proof.
  intros H. unfold Remove. rewrite H.
  destruct (data s2 !! key) as [v|] eqn:Hv;
    split; simpl; rewrite ?lookup_delete_eq; congruence.
Qed.

(** No operation reads or writes the entry of a key other than the one
    it is called with.  It leaves the entry of every other key as it
    was; and on two stores that hold the same at its key, whatever they
    hold elsewhere, it returns the same values and leaves the same
    entry, or none, at its key.  Get writes nothing when it returns a
    value: the only change Get ever makes is the deletion of an expired
    entry at its own key. *)
Theorem other_keys_untouched {Other : Type}
    (json_Marshal : Other → option string)
    (key key' : string) (s s2 : MemoryStore) :
  key' ≠ key →
  data s2 !! key = data s !! key →
  ((∀ now value ttl,
      data (Set_ json_Marshal now key value ttl s).1 !! key' =
        data s !! key') ∧
   (∀ now1 now2,
      data (Get now1 now2 key s).1 !! key' = data s !! key' ∧
      ((Get now1 now2 key s).2.2 = None → (Get now1 now2 key s).1 = s)) ∧
   (∀ now value,
      data (Update json_Marshal now key value s).1 !! key' =
        data s !! key') ∧
   data (Remove key s).1 !! key' = data s !! key' ∧
   (∀ now1 now2 item,
      data (Push json_Marshal now1 now2 key item s).1 !! key' =
        data s !! key') ∧
   (∀ now, data (Pop now key s).1 !! key' = data s !! key')) ∧
  ((∀ now value ttl,
      (Set_ json_Marshal now key value ttl s2).2 =
        (Set_ json_Marshal now key value ttl s).2 ∧
      data (Set_ json_Marshal now key value ttl s2).1 !! key =
        data (Set_ json_Marshal now key value ttl s).1 !! key) ∧
   (∀ now1 now2,
      (Get now1 now2 key s2).2 = (Get now1 now2 key s).2 ∧
      data (Get now1 now2 key s2).1 !! key =
        data (Get now1 now2 key s).1 !! key) ∧
   (∀ now value,
      (Update json_Marshal now key value s2).2 =
        (Update json_Marshal now key value s).2 ∧
      data (Update json_Marshal now key value s2).1 !! key =
        data (Update json_Marshal now key value s).1 !! key) ∧
   ((Remove key s2).2 = (Remove key s).2 ∧
    data (Remove key s2).1 !! key = data (Remove key s).1 !! key) ∧
   (∀ now1 now2 item,
      (Push json_Marshal now1 now2 key item s2).2 =
        (Push json_Marshal now1 now2 key item s).2 ∧
      data (Push json_Marshal now1 now2 key item s2).1 !! key =
        data (Push json_Marshal now1 now2 key item s).1 !! key) ∧
   (∀ now,
      (Pop now key s2).2 = (Pop now key s).2 ∧
      data (Pop now key s2).1 !! key = data (Pop now key s).1 !! key)).
Proof.
  intros Hne Hsame. split.
  - split; [intros; by apply Set_frame|].
    split.
    { intros now1 now2. split; [by apply Get_frame|].
      apply Get_success_keeps_store. }
    split; [intros; by apply Update_frame|].
    split; [by apply Remove_frame|].
    split; [intros; by apply Push_frame|].
    intros; by apply Pop_frame.
  - split.
    { intros now value ttl.
      destruct (Set_depends_on_key json_Marshal now key value ttl s2 s).
      split; auto. }
    split; [intros; by apply Get_depends_on_key|].
    split; [intros; by apply Update_depends_on_key|].
    split; [by apply Remove_depends_on_key|].
    split; [intros; by apply Push_depends_on_key|].
    intros; by apply Pop_depends_on_key.
Qed.

Lemma other_keys_untouched_witness :
  "k" ≠ "l" ∧
  data (store_put "k" one_second_entry one_item_store) !! "l" =
    data one_item_store !! "l" ∧
  data (Push marshal t2025 t2025 "l" (any_string "y") one_item_store).1
    !! "k" = data one_item_store !! "k" ∧
  (Pop t2025 "l" (store_put "k" one_second_entry one_item_store)).2 =
    (Pop t2025 "l" one_item_store).2.
Proof.
  assert (H1 : "k" ≠ "l") by discriminate.
  assert (H2 : data (store_put "k" one_second_entry one_item_store) !! "l" =
               data one_item_store !! "l") by reflexivity.
  split; [exact H1|]. split; [exact H2|].
  destruct (other_keys_untouched marshal "l" "k" one_item_store
              (store_put "k" one_second_entry one_item_store) H1 H2)
    as ((_ & _ & _ & _ & Hpush & _) & (_ & _ & _ & _ & _ & Hpop)).
  split.
  - exact (Hpush t2025 t2025 (any_string "y")).
  - exact (proj1 (Hpop t2025)).
Defined.

(** ** The entries of a reachable store *)

Lemma sweep_loop_kept done clock entries :
  ∀ i s k v,
    data (sweep_loop done clock i entries s) !! k = Some v →
    data s !! k = Some v.
Proof.
  induction entries as [|[k0 v0] rest IH]; intros i s k v; simpl; [done|].
  destruct (done i); [done|]. intros H. apply IH in H.
  destruct (negb (time.IsZero (TTL v0)) && time.After (clock i) (TTL v0));
    [|done].
  simpl in H. apply lookup_delete_Some in H. tauto.
Qed.

Lemma well_formed_put (s : MemoryStore) key v :
  (∀ k w, data s !! k = Some w → well_formed w) →
  well_formed v →
  ∀ k w, data (store_put key v s) !! k = Some w → well_formed w.
Proof.
  intros Hs Hv k w. simpl. intros [[-> <-] | [_ H]]%lookup_insert_Some; eauto.
Qed.

Lemma well_formed_delete (s : MemoryStore) key :
  (∀ k w, data s !! k = Some w → well_formed w) →
  ∀ k w, data (store_delete key s) !! k = Some w → well_formed w.
Proof.
  intros Hs k w. simpl. intros [_ H]%lookup_delete_Some. eauto.
Qed.

(** In every store that the operations and the worker can build from a
    new one, a scalar entry has an empty list field, and a list entry
    has an empty string field and a zero expiresAt; so a list entry is
    never expired, at any instant. *)
Theorem reachable_well_formed {Other : Type}
    (json_Marshal : Other → option string)
    (s : MemoryStore) (k : string) (v : Value) :
  reachable json_Marshal s →
  data s !! k = Some v →
  well_formed v ∧ (IsList v = true → ∀ now, expired now v = false).
Proof.
  intros Hreach Hv.
  assert (Hwf : well_formed v).
  { revert k v Hv.
    induction Hreach as
      [ | s now key value ttl _ IH | s now1 now2 key _ IH
        | s now key value _ IH | s key _ IH | s now1 now2 key item _ IH
        | s now key _ IH | s done clock entries _ IH _ ].
    - intros k v. simpl. by rewrite lookup_empty.
    - unfold Set_. destruct (ttl <? 0); [exact IH|].
      destruct (Stringify json_Marshal value); [|exact IH].
      by apply well_formed_put.
    - unfold Get. destruct (data s !! key) as [v|]; [|exact IH].
      destruct (time.IsZero (TTL v) || time.Before now1 (TTL v)).
      + by destruct (IsList v).
      + destruct (negb (time.IsZero (TTL v)) && time.After now2 (TTL v));
          [by apply well_formed_delete|by destruct (IsList v)].
    - unfold Update. destruct (Stringify json_Marshal value); [|exact IH].
      destruct (data s !! key) as [v|] eqn:Hv; [|exact IH].
      destruct (negb (time.IsZero (TTL v)) && time.After now (TTL v));
        [by apply well_formed_delete|].
      destruct (IsList v) eqn:Hl; [exact IH|].
      apply well_formed_put; [exact IH|].
      pose proof (IH _ _ Hv) as Hwf. unfold well_formed in *. simpl.
      by rewrite Hl in *.
    - unfold Remove. destruct (data s !! key); [|exact IH].
      by apply well_formed_delete.
    - destruct (Stringify json_Marshal item) as [str|] eqn:Hstr;
        [|by rewrite Push_unserializable].
      destruct (data s !! key) as [v|] eqn:Hv.
      + destruct (expired now1 v) eqn:Hexp.
        * rewrite (Push_fresh json_Marshal _ _ _ _ _ str) by eauto.
          by apply well_formed_put.
        * rewrite (Push_live json_Marshal _ _ _ _ _ _ _ Hstr Hv Hexp).
          destruct (IsList v) eqn:Hl; [|exact IH].
          apply well_formed_put; [exact IH|].
          pose proof (IH _ _ Hv) as Hwf. unfold well_formed in *. simpl.
          by rewrite Hl in *.
      + rewrite (Push_fresh json_Marshal _ _ _ _ _ str) by eauto.
        by apply well_formed_put.
    - unfold Pop. destruct (data s !! key) as [v|] eqn:Hv; [|exact IH].
      destruct (negb (time.IsZero (TTL v)) && time.After now (TTL v));
        [by apply well_formed_delete|].
      destruct (IsList v) eqn:Hl; simpl; [|exact IH].
      destruct (List v); [exact IH|].
      apply well_formed_put; [exact IH|].
      pose proof (IH _ _ Hv) as Hwf. unfold well_formed in *. simpl.
      by rewrite Hl in *.
    - intros k v Hk. apply sweep_loop_kept in Hk. eauto. }
  split; [exact Hwf|].
  intros Hl now. unfold well_formed in Hwf. rewrite Hl in Hwf.
  apply expired_false_iff. left. tauto.
Qed.

Lemma reachable_well_formed_witness :
  reachable marshal one_item_store ∧
  data one_item_store !! "l" = Some one_item_entry ∧
  well_formed one_item_entry.
Proof.
  assert (H1 : reachable marshal one_item_store)
    by (apply reach_Push, reach_New).
  assert (H2 : data one_item_store !! "l" = Some one_item_entry)
    by reflexivity.
  split; [exact H1|]. split; [exact H2|].
  exact (proj1 (reachable_well_formed marshal _ _ _ H1 H2)).
Defined.

(** ** The worker's tick *)

Lemma ranges_over_lookup entries s k v :
  ranges_over entries s →
  (k, v) ∈ entries ↔ data s !! k = Some v.
Proof.
  unfold ranges_over. intros Hperm. rewrite Hperm.
  apply elem_of_map_to_list.
Qed.

(** What a tick does to one key: nothing, or the deletion of an entry
    that the loop reached before any cancellation and found expired. *)
Lemma sweep_loop_lookup done clock entries :
  ∀ i s k,
    data (sweep_loop done clock i entries s) !! k = data s !! k ∨
    (data (sweep_loop done clock i entries s) !! k = None ∧
     ∃ j v, entries !! j = Some (k, v) ∧
            expired (clock (i + j)%nat) v = true).
Proof.
  induction entries as [|[k0 v0] rest IH]; intros i s k; simpl; [by left|].
  destruct (done i); [by left|].
  fold (expired (clock i) v0).
  destruct (IH (S i)
              (if expired (clock i) v0 then store_delete k0 s else s) k)
    as [Hsame | (Hnone & j & v & Hj & Hexp)].
  - destruct (expired (clock i) v0) eqn:Hexp0; [|by left].
    destruct (decide (k = k0)) as [->|Hne].
    + right. split.
      * rewrite Hsame. apply store_delete_lookup.
      * exists 0%nat, v0. split; [done|]. by rewrite Nat.add_0_r.
    + left. rewrite Hsame. simpl. by apply lookup_delete_ne.
  - right. split; [exact Hnone|].
    exists (S j), v. split; [done|]. by rewrite Nat.add_succ_r.
Qed.

(** An entry that an uncancelled loop finds expired is gone at the end. *)
Lemma sweep_loop_deletes done clock entries :
  (∀ j, done j = false) →
  ∀ i s j k v,
    entries !! j = Some (k, v) →
    expired (clock (i + j)%nat) v = true →
    data (sweep_loop done clock i entries s) !! k = None.
Proof.
  intros Hrun.
  induction entries as [|[k0 v0] rest IH]; intros i s j k v; [done|].
  simpl. rewrite Hrun. fold (expired (clock i) v0).
  destruct j as [|j]; simpl.
  - intros [= -> ->]. rewrite Nat.add_0_r. intros ->.
    destruct (data (sweep_loop done clock (S i) rest (store_delete k s)) !! k)
      as [w|] eqn:Hw; [|done].
    apply sweep_loop_kept in Hw. by rewrite store_delete_lookup in Hw.
  - intros Hj Hexp. rewrite Nat.add_succ_r in Hexp.
    by apply (IH (S i) _ j k v).
Qed.

(** A tick deletes only expired entries, and it changes no entry: for
    every key, either the key maps to what it did before the tick, or
    it held an entry that is expired at every instant from the clock
    reading of its iteration on, and is now absent.  This holds in
    whatever order the map is ranged over and whenever the context is
    cancelled. *)
Theorem sweep_removes_only_expired
    (done : nat → bool) (clock : nat → time.Time)
    (entries : list (string * Value)) (s : MemoryStore)
    (now : time.Time) (k : string) :
  ranges_over entries s →
  (∀ i, clock i ≤ now) →
  let s' := sweep_loop done clock 0 entries s in
  data s' !! k = data s !! k ∨
  (data s' !! k = None ∧
   ∃ v, data s !! k = Some v ∧ TTL v ≠ 0 ∧ TTL v < now).
Proof.
  intros Hrange Hclock s'.
  destruct (sweep_loop_lookup done clock entries 0 s k)
    as [Hsame | (Hnone & j & v & Hj & Hexp)]; [by left|].
  right. split; [exact Hnone|]. exists v. split.
  - apply (ranges_over_lookup entries); [done|].
    by apply list_elem_of_lookup_2 with j.
  - apply expired_true_iff.
    by apply (expired_mono (clock (0 + j)%nat)).
Qed.

Lemma one_second_store_ranges :
  ranges_over [("k", one_second_entry)] one_second_store.
Proof. unfold ranges_over. vm_compute. reflexivity. Qed.

Lemma sweep_removes_only_expired_witness :
  ranges_over [("k", one_second_entry)] one_second_store ∧
  (∀ i : nat, (λ _, t2025 + 2000000000) i ≤ t2025 + 2000000000) ∧
  (data (sweep_loop (λ _, false) (λ _, t2025 + 2000000000) 0
           [("k", one_second_entry)] one_second_store) !! "k"
     = data one_second_store !! "k" ∨
   (data (sweep_loop (λ _, false) (λ _, t2025 + 2000000000) 0
            [("k", one_second_entry)] one_second_store) !! "k" = None ∧
    ∃ v, data one_second_store !! "k" = Some v ∧ TTL v ≠ 0 ∧
         TTL v < t2025 + 2000000000)).
Proof.
  assert (H1 := one_second_store_ranges).
  assert (H2 : ∀ i : nat,
    (λ _, t2025 + 2000000000) i ≤ t2025 + 2000000000) by (intros; simpl; lia).
  split; [exact H1|]. split; [exact H2|].
  exact (sweep_removes_only_expired (λ _, false) (λ _, t2025 + 2000000000)
           _ _ (t2025 + 2000000000) "k" H1 H2).
Defined.

(** A tick that is not cancelled leaves no entry that was already
    expired when the tick began: every entry still in the map afterwards
    is unexpired at any instant at or before the tick's clock readings. *)
Theorem sweep_complete
    (done : nat → bool) (clock : nat → time.Time)
    (entries : list (string * Value)) (s : MemoryStore)
    (start : time.Time) (k : string) (v : Value) :
  ranges_over entries s →
  (∀ i, done i = false) →
  (∀ i, start ≤ clock i) →
  data (sweep_loop done clock 0 entries s) !! k = Some v →
  data s !! k = Some v ∧ expired start v = false.
Proof.
  intros Hrange Hrun Hclock Hk.
  pose proof (sweep_loop_kept _ _ _ _ _ _ _ Hk) as Hs.
  split; [exact Hs|].
  destruct (expired start v) eqn:Hexp; [|done].
  apply (ranges_over_lookup entries) in Hs; [|done].
  apply list_elem_of_lookup_1 in Hs as [j Hj].
  rewrite (sweep_loop_deletes done clock entries Hrun 0 s j k v Hj) in Hk;
    [discriminate|].
  by apply (expired_mono start).
Qed.

Lemma sweep_complete_witness :
  ranges_over [("k", one_second_entry)] one_second_store ∧
  (∀ i : nat, (λ _ : nat, false) i = false) ∧
  (∀ i : nat, t2025 ≤ (λ _, t2025 + 5) i) ∧
  data (sweep_loop (λ _, false) (λ _, t2025 + 5) 0
          [("k", one_second_entry)] one_second_store) !! "k"
    = Some one_second_entry ∧
  expired t2025 one_second_entry = false.
Proof.
  assert (H1 := one_second_store_ranges).
  assert (H2 : ∀ i : nat, (λ _ : nat, false) i = false) by done.
  assert (H3 : ∀ i : nat, t2025 ≤ (λ _, t2025 + 5) i)
    by (intros; simpl; lia).
  assert (H4 : data (sweep_loop (λ _, false) (λ _, t2025 + 5) 0
          [("k", one_second_entry)] one_second_store) !! "k"
    = Some one_second_entry) by reflexivity.
  split; [exact H1|]. split; [exact H2|]. split; [exact H3|].
  split; [exact H4|].
  exact (proj2 (sweep_complete _ _ _ _ t2025 "k" _ H1 H2 H3 H4)).
Defined.

(** ** The tick and the operations *)

(** Get, Update, Pop and Push cannot tell whether a tick of the worker
    ran before them: at clock readings no earlier than the tick's, each
    returns the same values on the swept store as on the unswept one.
    Get and Pop also leave the same entry, or none, at their key, and so
    do Update and Push when Stringify accepts their value (when it
    rejects the value they return before looking at the key, so an
    expired entry that the tick would have deleted stays in the map).
    Remove, by contrast, can tell: it succeeds on an expired entry that
    no tick has deleted. *)
Theorem sweep_invisible {Other : Type}
    (json_Marshal : Other → option string)
    (done : nat → bool) (clock : nat → time.Time)
    (entries : list (string * Value)) (s : MemoryStore)
    (now1 now2 : time.Time) (key : string) :
  ranges_over entries s →
  (∀ i, clock i ≤ now1) →
  now1 ≤ now2 →
  let s' := sweep_loop done clock 0 entries s in
  ((Get now1 now2 key s').2 = (Get now1 now2 key s).2 ∧
   data (Get now1 now2 key s').1 !! key =
     data (Get now1 now2 key s).1 !! key) ∧
  (∀ value,
     (Update json_Marshal now1 key value s').2 =
       (Update json_Marshal now1 key value s).2 ∧
     (Stringify json_Marshal value ≠ None →
      data (Update json_Marshal now1 key value s').1 !! key =
        data (Update json_Marshal now1 key value s).1 !! key)) ∧
  ((Pop now1 key s').2 = (Pop now1 key s).2 ∧
   data (Pop now1 key s').1 !! key = data (Pop now1 key s).1 !! key) ∧
  (∀ item,
     (Push json_Marshal now1 now2 key item s').2 =
       (Push json_Marshal now1 now2 key item s).2 ∧
     (Stringify json_Marshal item ≠ None →
      data (Push json_Marshal now1 now2 key item s').1 !! key =
        data (Push json_Marshal now1 now2 key item s).1 !! key)).
Proof.
  intros Hrange Hclock Hle s'.
  destruct (sweep_loop_lookup done clock entries 0 s key)
    as [Hsame | (Hnone & j & v & Hj & Hexp)].
  - split; [by apply Get_depends_on_key|].
    split.
    { intros value.
      destruct (Update_depends_on_key json_Marshal now1 key value s' s Hsame).
      by split. }
    split; [by apply Pop_depends_on_key|].
    intros item.
    destruct (Push_depends_on_key json_Marshal now1 now2 key item s' s Hsame).
    by split.
  - fold s' in Hnone.
    assert (Hv : data s !! key = Some v).
    { apply (ranges_over_lookup entries); [done|].
      by apply list_elem_of_lookup_2 with j. }
    assert (Hexp1 : expired now1 v = true)
      by (by apply (expired_mono (clock (0 + j)%nat))).
    split; [|split; [|split]].
    + rewrite (Get_absent _ _ _ _ Hnone).
      rewrite (Get_expired _ _ _ _ _ Hv Hle Hexp1).
      simpl. by rewrite lookup_delete_eq.
    + intros value.
      destruct (Stringify json_Marshal value) as [str|] eqn:Hstr.
      * rewrite (Update_absent _ _ _ _ _ Hnone), Hstr.
        rewrite (Update_present _ _ _ _ _ _ _ Hstr Hv), Hexp1.
        simpl. by rewrite lookup_delete_eq.
      * rewrite !Update_unserializable by done. by split.
    + rewrite (Pop_absent _ _ _ Hnone).
      rewrite (Pop_present _ _ _ _ Hv), Hexp1.
      simpl. by rewrite lookup_delete_eq.
    + intros item.
      destruct (Stringify json_Marshal item) as [str|] eqn:Hstr.
      * rewrite !(Push_fresh json_Marshal _ _ _ _ _ str) by eauto.
        simpl. by rewrite !lookup_insert_eq.
      * rewrite !Push_unserializable by done. by split.
Qed.

Lemma sweep_invisible_witness :
  ranges_over [("k", one_second_entry)] one_second_store ∧
  (∀ i : nat, (λ _, t2025 + 2000000000) i ≤ t2025 + 2000000001) ∧
  t2025 + 2000000001 ≤ t2025 + 2000000002 ∧
  (Get (t2025 + 2000000001) (t2025 + 2000000002) "k"
     (sweep_loop (λ _, false) (λ _, t2025 + 2000000000) 0
        [("k", one_second_entry)] one_second_store)).2 =
  (Get (t2025 + 2000000001) (t2025 + 2000000002) "k" one_second_store).2.
Proof.
  assert (H1 := one_second_store_ranges).
  assert (H2 : ∀ i : nat,
    (λ _, t2025 + 2000000000) i ≤ t2025 + 2000000001) by (intros; simpl; lia).
  assert (H3 : t2025 + 2000000001 ≤ t2025 + 2000000002) by lia.
  split; [exact H1|]. split; [exact H2|]. split; [exact H3|].
  exact (proj1 (proj1
    (sweep_invisible marshal (λ _, false) (λ _, t2025 + 2000000000)
       _ _ _ _ "k" H1 H2 H3))).
Defined.

(** ** Runs of Push and Pop *)

Lemma Push_holds_list {Other : Type} (json_Marshal : Other → option string)
    now1 now2 key item str l s :
  holds_list key l s →
  Stringify json_Marshal item = Some str →
  (Push json_Marshal now1 now2 key item s).2 = None ∧
  holds_list key (str :: l) (Push json_Marshal now1 now2 key item s).1.
Proof.
  unfold holds_list. intros Hl Hstr.
  destruct (data s !! key) as [v|] eqn:Hv.
  - destruct Hl as (Hlist & Hz & <-).
    assert (Hlive : expired now1 v = false)
      by (apply expired_false_iff; by left).
    rewrite (Push_live json_Marshal _ _ _ _ _ _ _ Hstr Hv Hlive), Hlist.
    simpl. by rewrite lookup_insert_eq.
  - subst l. rewrite (Push_fresh json_Marshal _ _ _ _ _ str) by eauto.
    simpl. by rewrite lookup_insert_eq.
Qed.

Lemma Pop_holds_list now key x l s :
  holds_list key (x :: l) s →
  (Pop now key s).2 = (x, None) ∧ holds_list key l (Pop now key s).1.
Proof.
  unfold holds_list. intros Hl.
  destruct (data s !! key) as [v|] eqn:Hv; [|discriminate].
  destruct Hl as (Hlist & Hz & Hx).
  assert (Hlive : expired now v = false)
    by (apply expired_false_iff; by left).
  rewrite (Pop_present _ _ _ _ Hv), Hlive, Hlist, Hx.
  simpl. by rewrite lookup_insert_eq.
Qed.

Lemma push_all_spec {Other : Type} (json_Marshal : Other → option string)
    key pushes strs :
  Forall2 (λ p str, Stringify json_Marshal p.2 = Some str) pushes strs →
  ∀ l s,
    holds_list key l s →
    (push_all json_Marshal key pushes s).2 = replicate (length strs) None ∧
    holds_list key (rev strs ++ l) (push_all json_Marshal key pushes s).1.
Proof.
  induction 1 as [|[[now1 now2] item] str pushes strs Hstr _ IH];
    intros l s Hl; [done|].
  simpl in Hstr.
  destruct (Push_holds_list json_Marshal now1 now2 key item str l s Hl Hstr)
    as [Herr Hl1].
  destruct (IH _ _ Hl1) as [Herrs Hl2].
  cbn [push_all fst snd length replicate rev]. rewrite Herr, Herrs.
  split; [done|]. by rewrite <- app_assoc.
Qed.

Lemma pop_all_spec key xs :
  ∀ nows l s,
    length nows = length xs →
    holds_list key (xs ++ l) s →
    (pop_all key nows s).2 = (λ x, (x, None)) <$> xs ∧
    holds_list key l (pop_all key nows s).1.
Proof.
  induction xs as [|x xs IH]; intros nows l s Hlen Hl.
  - destruct nows; [done|discriminate].
  - destruct nows as [|now nows]; [discriminate|].
    injection Hlen as Hlen.
    destruct (Pop_holds_list now key x (xs ++ l) s Hl) as [Hres Hl1].
    destruct (IH nows l _ Hlen Hl1) as [Hrest Hl2].
    cbn [pop_all fst snd fmap list_fmap]. by rewrite Hres, Hrest.
Qed.

(** The list at a key is a stack of any depth.  On a key that is absent
    or holds a list [l], pushing any items that Stringify accepts, one
    after the other, all succeed and leave the serialized items in
    reverse order of arrival in front of [l]; as many pops then return
    them last-pushed first, all without error, and leave the list [l]
    again.  No clock reading changes any of this. *)
Theorem push_all_pop_all {Other : Type}
    (json_Marshal : Other → option string)
    (key : string) (s : MemoryStore) (l : list string)
    (pushes : list (time.Time * time.Time * any Other))
    (strs : list string) (nows : list time.Time) :
  holds_list key l s →
  Forall2 (λ p str, Stringify json_Marshal p.2 = Some str) pushes strs →
  length nows = length strs →
  let pushed := push_all json_Marshal key pushes s in
  let popped := pop_all key nows pushed.1 in
  pushed.2 = replicate (length strs) None ∧
  holds_list key (rev strs ++ l) pushed.1 ∧
  popped.2 = (λ x, (x, None)) <$> rev strs ∧
  holds_list key l popped.1.
Proof.
  intros Hl Hstrs Hlen pushed popped.
  destruct (push_all_spec json_Marshal key pushes strs Hstrs l s Hl)
    as [Herrs Hl1].
  split; [exact Herrs|]. split; [exact Hl1|].
  apply pop_all_spec; [|exact Hl1].
  by rewrite length_rev.
Qed.

Lemma push_all_pop_all_witness :
  holds_list "q" [] NewMemoryStore ∧
  Forall2 (λ p str, Stringify marshal p.2 = Some str)
    [(t2025, t2025, any_string "a"); (t2025, t2025, any_other (go_int 7))]
    ["a"; "7"] ∧
  length [t2025; t2025] = length ["a"; "7"] ∧
  (pop_all "q" [t2025; t2025]
     (push_all marshal "q"
        [(t2025, t2025, any_string "a"); (t2025, t2025, any_other (go_int 7))]
        NewMemoryStore).1).2 = [("7", None); ("a", None)].
Proof.
  assert (H1 : holds_list "q" [] NewMemoryStore) by reflexivity.
  assert (H2 : Forall2 (λ p str, Stringify marshal p.2 = Some str)
    [(t2025, t2025, any_string "a"); (t2025, t2025, any_other (go_int 7))]
    ["a"; "7"]) by (repeat constructor).
  assert (H3 : length [t2025; t2025] = length ["a"; "7"]) by reflexivity.
  split; [exact H1|]. split; [exact H2|]. split; [exact H3|].
  exact (proj1 (proj2 (proj2
    (push_all_pop_all marshal "q" NewMemoryStore [] _ _ _ H1 H2 H3)))).
Defined.

(** A list that Pop has emptied stays in the map as an empty list: the
    next Pop fails with EmptyList, not KeyNotFound, Get still fails with
    TypeMismatch, and only Remove frees the key. *)
Theorem Pop_last_keeps_entry
    (now : time.Time) (key : string) (s : MemoryStore) (v : Value)
    (x : string) :
  data s !! key = Some v →
  IsList v = true →
  TTL v = 0 →
  List v = [x] →
  let s1 := store_put key (set_List v []) s in
  Pop now key s = (s1, (x, None)) ∧
  (∀ now', Pop now' key s1 = (s1, ("", Some ErrEmptyList))) ∧
  (∀ now1 now2, Get now1 now2 key s1 = (s1, ("", Some ErrTypeMismatch))) ∧
  Remove key s1 = (store_delete key s, None).
Proof.
  intros Hv Hlist Hz Hx s1.
  assert (Hlive : ∀ now', expired now' v = false)
    by (intros; apply expired_false_iff; by left).
  assert (Hv1 : data s1 !! key = Some (set_List v []))
    by apply store_put_lookup.
  split.
  { by rewrite (Pop_present _ _ _ _ Hv), Hlive, Hlist, Hx. }
  assert (Hlive1 : ∀ now', expired now' (set_List v []) = false)
    by (intros; apply expired_false_iff; by left).
  split.
  { intros now'. rewrite (Pop_present _ _ _ _ Hv1), Hlive1. simpl.
    by rewrite Hlist. }
  split.
  { intros now1 now2.
    rewrite (Get_live _ _ _ _ _ Hv1) by apply Hlive1.
    simpl. by rewrite Hlist. }
  unfold Remove. rewrite Hv1. f_equal.
  apply store_eq; simpl. apply delete_insert_eq.
Qed.

Lemma Pop_last_keeps_entry_witness :
  data one_item_store !! "l" = Some one_item_entry ∧
  IsList one_item_entry = true ∧ TTL one_item_entry = 0 ∧
  List one_item_entry = ["x"] ∧
  Pop t2025 "l" one_item_store =
    (store_put "l" (set_List one_item_entry []) one_item_store, ("x", None)).
Proof.
  assert (H1 : data one_item_store !! "l" = Some one_item_entry)
    by reflexivity.
  split; [exact H1|]. split; [reflexivity|]. split; [reflexivity|].
  split; [reflexivity|].
  exact (proj1 (Pop_last_keeps_entry t2025 "l" _ _ "x" H1
                  eq_refl eq_refl eq_refl)).
Defined.

(** ** Writes to one key *)

Lemma store_put_put key v w s :
  store_put key v (store_put key w s) = store_put key v s.
Proof. apply store_eq; simpl. apply insert_insert_eq. Qed.

Lemma Set_store_shape {Other : Type} (json_Marshal : Other → option string)
    now key value ttl s :
  (Set_ json_Marshal now key value ttl s).1 = s ∨
  ∃ v, (Set_ json_Marshal now key value ttl s).1 = store_put key v s.
Proof.
  unfold Set_. destruct (ttl <? 0); [by left|].
  destruct (Stringify json_Marshal value); [right; eauto|by left].
Qed.

Lemma Push_store_shape {Other : Type} (json_Marshal : Other → option string)
    now1 now2 key item s :
  (Push json_Marshal now1 now2 key item s).1 = s ∨
  ∃ v, (Push json_Marshal now1 now2 key item s).1 = store_put key v s.
Proof.
  destruct (Stringify json_Marshal item) as [str|] eqn:Hstr;
    [|rewrite Push_unserializable by done; by left].
  destruct (data s !! key) as [v|] eqn:Hv.
  - destruct (expired now1 v) eqn:Hexp.
    + rewrite (Push_fresh json_Marshal _ _ _ _ _ str) by eauto.
      right; eauto.
    + rewrite (Push_live json_Marshal _ _ _ _ _ _ _ Hstr Hv Hexp).
      destruct (IsList v); [right; eauto|by left].
  - rewrite (Push_fresh json_Marshal _ _ _ _ _ str) by eauto. right; eauto.
Qed.

(** A Set that succeeds forgets whatever an earlier Set or Push did to
    the key: the store is the one the Set alone would have given.  A
    Remove right after it succeeds and leaves the store without the key,
    which is the store from before the Set when the key was absent. *)
Theorem Set_last_write_wins {Other : Type}
    (json_Marshal : Other → option string)
    (now : time.Time) (key : string) (value : any Other) (ttl : Z)
    (s : MemoryStore) :
  0 ≤ ttl →
  Stringify json_Marshal value ≠ None →
  let set st := Set_ json_Marshal now key value ttl st in
  (set s).2 = None ∧
  (∀ now0 value0 ttl0,
     set (Set_ json_Marshal now0 key value0 ttl0 s).1 = set s) ∧
  (∀ now1 now2 item,
     set (Push json_Marshal now1 now2 key item s).1 = set s) ∧
  Remove key (set s).1 = (store_delete key s, None) ∧
  (data s !! key = None → (Remove key (set s).1).1 = s).
Proof.
  intros Httl Hser set.
  destruct (Stringify json_Marshal value) as [str|] eqn:Hstr; [|done].
  assert (Hset : ∀ st, set st =
    (store_put key
       {| Val := str;
          TTL := (if 0 <? ttl then now + seconds ttl else 0);
          IsList := false; List := [] |} st, None))
    by (intros; by apply Set_ok).
  split; [by rewrite Hset|]. split; [|split; [|split]].
  - intros now0 value0 ttl0. rewrite !Hset.
    destruct (Set_store_shape json_Marshal now0 key value0 ttl0 s)
      as [-> | [w ->]]; [done|]. by rewrite store_put_put.
  - intros now1 now2 item. rewrite !Hset.
    destruct (Push_store_shape json_Marshal now1 now2 key item s)
      as [-> | [w ->]]; [done|]. by rewrite store_put_put.
  - rewrite Hset. unfold Remove. simpl. rewrite lookup_insert_eq.
    f_equal. apply store_eq; simpl. apply delete_insert_eq.
  - intros Habsent. rewrite Hset. unfold Remove. simpl.
    rewrite lookup_insert_eq. simpl.
    apply store_eq; simpl. rewrite delete_insert_eq. by apply delete_id.
Qed.

Lemma Set_last_write_wins_witness :
  0 ≤ 60 ∧ Stringify marshal (any_string "w") ≠ None ∧
  Set_ marshal (t2025 + 3) "l" (any_string "w") 60
    (Push marshal t2025 t2025 "l" (any_string "x") NewMemoryStore).1 =
  Set_ marshal (t2025 + 3) "l" (any_string "w") 60 NewMemoryStore.
Proof.
  assert (H1 : 0 ≤ 60) by lia.
  assert (H2 : Stringify marshal (any_string "w") ≠ None) by discriminate.
  split; [exact H1|]. split; [exact H2|].
  destruct (Set_last_write_wins marshal (t2025 + 3) "l" (any_string "w") 60
              NewMemoryStore H1 H2) as (_ & _ & Hpush & _).
  exact (Hpush t2025 t2025 (any_string "x")).
Defined.

(** A key set with [ttlSeconds = 0] is served by Get at every instant
    from then on, also after any number of worker ticks: the entry has a
    zero expiresAt, which neither Get nor the worker takes as expired. *)
Theorem Set_zero_ttl_immortal {Other : Type}
    (json_Marshal : Other → option string)
    (now0 : time.Time) (key : string) (value : any Other)
    (s s' : MemoryStore) :
  Set_ json_Marshal now0 key value 0 s = (s', None) →
  ∃ str,
    Stringify json_Marshal value = Some str ∧
    (∀ now1 now2, Get now1 now2 key s' = (s', (str, None))) ∧
    (∀ done clock entries now1 now2,
       ranges_over entries s' →
       Get now1 now2 key (sweep_loop done clock 0 entries s') =
         (sweep_loop done clock 0 entries s', (str, None))).
Proof.
  intros Hset.
  destruct (Stringify json_Marshal value) as [str|] eqn:Hstr.
  2:{ unfold Set_ in Hset. rewrite Hstr in Hset. discriminate. }
  rewrite (Set_ok _ _ _ _ _ _ str) in Hset by (lia || done).
  injection Hset as <-.
  set (e := {| Val := str; TTL := 0; IsList := false; List := [] |}).
  assert (Hlook : data (store_put key e s) !! key = Some e)
    by apply store_put_lookup.
  assert (Hlive : ∀ now, expired now e = false)
    by (intros; apply expired_false_iff; by left).
  exists str. split; [reflexivity|]. split.
  - intros now1 now2. by rewrite (Get_live _ _ _ _ _ Hlook).
  - intros done clock entries now1 now2 Hrange.
    assert (Hkept : data (sweep_loop done clock 0 entries (store_put key e s))
                      !! key = Some e).
    { destruct (sweep_loop_lookup done clock entries 0 (store_put key e s) key)
        as [Hsame | (_ & j & v & Hj & Hexp)]; [by rewrite Hsame|].
      assert (v = e) as ->.
      { apply list_elem_of_lookup_2 in Hj.
        apply (ranges_over_lookup entries _ _ _ Hrange) in Hj. congruence. }
      by rewrite Hlive in Hexp. }
    by rewrite (Get_live _ _ _ _ _ Hkept).
Qed.

Lemma Set_zero_ttl_immortal_witness :
  Set_ marshal t2025 "c" (any_string "on") 0 NewMemoryStore =
    (store_put "c" {| Val := "on"; TTL := 0; IsList := false; List := [] |}
       NewMemoryStore, None) ∧
  ∃ str,
    Stringify marshal (any_string "on") = Some str ∧
    Get (t2025 * 2) (t2025 * 2) "c"
      (store_put "c" {| Val := "on"; TTL := 0; IsList := false; List := [] |}
         NewMemoryStore) =
    (store_put "c" {| Val := "on"; TTL := 0; IsList := false; List := [] |}
       NewMemoryStore, (str, None)).
Proof.
  assert (H : Set_ marshal t2025 "c" (any_string "on") 0 NewMemoryStore =
    (store_put "c" {| Val := "on"; TTL := 0; IsList := false; List := [] |}
       NewMemoryStore, None)) by reflexivity.
  split; [exact H|].
  destruct (Set_zero_ttl_immortal marshal _ _ _ _ _ H) as (str & Hs & Hg & _).
  exists str. split; [exact Hs|]. apply Hg.
Defined.

(** * Properties of the HTTP handlers *)

Local Set Warnings "-clear-no-such-hyp".

(** ** Error texts and path slices *)

Lemma error_Error_key_not_found (e : error) :
  error_Error e = "key not found" ↔ e = ErrKeyNotFound.
Proof. destruct e; simpl; split; (done || discriminate). Qed.

Lemma error_Error_not_empty_list (e : error) : error_Error e ≠ "empty list".
Proof. destruct e; discriminate. Qed.

Lemma substring_all (k : string) : String.substring 0 (String.length k) k = k.
Proof. induction k as [|a k IH]; simpl; [done|]. by rewrite IH. Qed.

Lemma slice_from_prefix (p k : string) :
  api.slice_from (String.length p) (p +:+ k) = Some k.
Proof.
  unfold api.slice_from.
  assert (Hlen : ∀ q, String.length (q +:+ k)
                      = (String.length q + String.length k)%nat).
  { induction q as [|a q IH]; simpl; [done|]. by rewrite IH. }
  rewrite Hlen.
  replace (String.length p + String.length k - String.length p)%nat
    with (String.length k) by lia.
  assert ((String.length p <=? String.length p + String.length k)%nat = true)
    as -> by (apply Nat.leb_le; lia).
  f_equal. induction p as [|a p IH]; simpl; [apply substring_all|exact IH].
Qed.

Lemma slice_from_None (n : nat) (p : string) :
  api.slice_from n p = None ↔ (String.length p < n)%nat.
Proof.
  unfold api.slice_from.
  destruct (Nat.leb_spec n (String.length p)); split;
    (done || lia || discriminate).
Qed.

(** ** Failures of the store operations that are not KeyNotFound *)

Lemma Get_error_keeps_store now1 now2 key s e :
  (Get now1 now2 key s).2.2 = Some e → e ≠ ErrKeyNotFound →
  (Get now1 now2 key s).1 = s.
Proof.
  unfold Get. destruct (data s !! key) as [v|]; [|done].
  destruct (time.IsZero (TTL v) || time.Before now1 (TTL v)).
  - by destruct (IsList v).
  - destruct (negb (time.IsZero (TTL v)) && time.After now2 (TTL v));
      [simpl; congruence|by destruct (IsList v)].
Qed.

Lemma Update_error_keeps_store {Other : Type}
    (json_Marshal : Other → option string) now key value s e :
  (Update json_Marshal now key value s).2 = Some e → e ≠ ErrKeyNotFound →
  (Update json_Marshal now key value s).1 = s.
Proof.
  unfold Update. destruct (Stringify json_Marshal value); [|done].
  destruct (data s !! key) as [v|]; [|done].
  destruct (negb (time.IsZero (TTL v)) && time.After now (TTL v));
    [simpl; congruence|].
  destruct (IsList v); [done|discriminate].
Qed.

Lemma Pop_error_keeps_store now key s e :
  (Pop now key s).2.2 = Some e → e ≠ ErrKeyNotFound →
  (Pop now key s).1 = s.
Proof.
  unfold Pop. destruct (data s !! key) as [v|]; [|done].
  destruct (negb (time.IsZero (TTL v)) && time.After now (TTL v));
    [simpl; congruence|].
  destruct (IsList v); simpl; [|done].
  destruct (List v); [done|discriminate].
Qed.

Lemma Push_error_keeps_store {Other : Type}
    (json_Marshal : Other → option string) now1 now2 key item s e :
  (Push json_Marshal now1 now2 key item s).2 = Some e →
  (Push json_Marshal now1 now2 key item s).1 = s.
Proof.
  destruct (Stringify json_Marshal item) as [str|] eqn:Hstr;
    [|by rewrite Push_unserializable].
  destruct (data s !! key) as [v|] eqn:Hv.
  - destruct (expired now1 v) eqn:Hexp.
    + rewrite (Push_fresh json_Marshal _ _ _ _ _ str) by eauto. discriminate.
    + rewrite (Push_live json_Marshal _ _ _ _ _ _ _ Hstr Hv Hexp).
      by destruct (IsList v).
  - rewrite (Push_fresh json_Marshal _ _ _ _ _ str) by eauto. discriminate.
Qed.

Lemma Set_error_keeps_store {Other : Type}
    (json_Marshal : Other → option string) now key value ttl s e :
  (Set_ json_Marshal now key value ttl s).2 = Some e →
  (Set_ json_Marshal now key value ttl s).1 = s.
Proof.
  unfold Set_. destruct (ttl <? 0); [done|].
  by destruct (Stringify json_Marshal value).
Qed.

Lemma Remove_error_keeps_store key s e :
  (Remove key s).2 = Some e → (Remove key s).1 = s.
Proof. unfold Remove. by destruct (data s !! key). Qed.

(** ** SetHandler *)

(** SetHandler replies 200 exactly to a POST whose body decodes, whose
    key is not empty, whose ttl_seconds is positive and whose value
    Stringify accepts, and it then stores the value as a scalar entry
    whose expiresAt is the clock reading plus the [int64] product of
    ttl_seconds and one second: that is ttl_seconds seconds after the
    clock reading when ttl_seconds is at most 9223372036, and a wrapped
    amount above that.  Every other request leaves the store unchanged.
    A ttl_seconds of 0, which the store itself takes as "no expiration",
    is refused with 400 like a negative one, so the store's own
    "invalid TTL value" never appears in a reply: a 500 from SetHandler
    always reports the marshalling failure.  SetHandler never panics. *)
Theorem SetHandler_validates {Other : Type}
    (json_Marshal : Other → option string)
    (now : time.Time) (r : api.Request (api.SetRequest Other))
    (s : MemoryStore) :
  let out := api.SetHandler json_Marshal now r s in
  (api.statusCode_of out.2 = Some 200 ↔
   api.Method r = "POST" ∧
   ∃ req, api.Body r = Some req ∧ api.SetRequest_Key req ≠ "" ∧
          0 < api.SetRequest_TTLSeconds req ∧
          Stringify json_Marshal (api.SetRequest_Value req) ≠ None) ∧
  (api.statusCode_of out.2 = Some 200 →
   ∃ req str,
     api.Body r = Some req ∧
     Stringify json_Marshal (api.SetRequest_Value req) = Some str ∧
     out.1 =
       store_put (api.SetRequest_Key req)
         {| Val := str;
            TTL := now + seconds (api.SetRequest_TTLSeconds req);
            IsList := false; List := [] |} s ∧
     (api.SetRequest_TTLSeconds req ≤ 9223372036 →
      now + seconds (api.SetRequest_TTLSeconds req) =
        now + api.SetRequest_TTLSeconds req * 1000000000)) ∧
  (api.statusCode_of out.2 ≠ Some 200 → out.1 = s) ∧
  (∀ req, api.Body r = Some req → api.Method r = "POST" →
          api.SetRequest_TTLSeconds req ≤ 0 →
          api.statusCode_of out.2 = Some 400 ∧ out.1 = s) ∧
  (∀ resp, out.2 = api.wrote 500 resp →
           api.Error resp =
             "Failed to set key: failed to marshal value to JSON") ∧
  out.2 ≠ api.panicked.
Proof.
  unfold api.SetHandler, http.MethodPost.
  destruct (decide (api.Method r = "POST")) as [Hm|Hm].
  2:{ rewrite bool_decide_eq_false_2 by done. simpl.
      split_and!; naive_solver lia. }
  rewrite bool_decide_eq_true_2 by done. simpl.
  destruct (api.Body r) as [req|] eqn:Hbody.
  2:{ simpl. split_and!; naive_solver lia. }
  destruct (decide (api.SetRequest_Key req = "")) as [Hk|Hk].
  { rewrite bool_decide_eq_true_2 by done. simpl.
    split_and!; naive_solver lia. }
  rewrite bool_decide_eq_false_2 by done.
  destruct (Z.leb_spec (api.SetRequest_TTLSeconds req) 0) as [Httl|Httl].
  { simpl. split_and!; naive_solver lia. }
  destruct (Stringify json_Marshal (api.SetRequest_Value req)) as [str|]
    eqn:Hstr.
  - rewrite (Set_ok _ _ _ _ _ _ str) by (lia || done).
    assert ((0 <? api.SetRequest_TTLSeconds req) = true) as -> by lia.
    simpl. split_and!; try naive_solver lia.
    intros _. exists req, str. split_and!; try done.
    intros Hr. by rewrite seconds_exact by lia.
  - unfold Set_. rewrite Hstr.
    assert ((api.SetRequest_TTLSeconds req <? 0) = false) as -> by lia.
    simpl. split_and!; try naive_solver lia.
    intros resp [= <-]. reflexivity.
Qed.

Lemma SetHandler_validates_witness :
  api.Body (api.mkRequest "POST" "/api/v1/keys"
              (Some (api.mkSetRequest "k" (any_string "v" : any GoValue) 0)))
    = Some (api.mkSetRequest "k" (any_string "v") 0) ∧
  api.statusCode_of
    (api.SetHandler marshal t2025
       (api.mkRequest "POST" "/api/v1/keys"
          (Some (api.mkSetRequest "k" (any_string "v") 0)))
       NewMemoryStore).2 = Some 400.
Proof.
  split; [reflexivity|].
  destruct (SetHandler_validates marshal t2025
              (api.mkRequest "POST" "/api/v1/keys"
                 (Some (api.mkSetRequest "k" (any_string "v") 0)))
              NewMemoryStore) as (_ & _ & _ & H & _).
  apply (H (api.mkSetRequest "k" (any_string "v") 0)); [reflexivity..|].
  simpl. lia.
Defined.

(** ** PopHandler *)

(** A pop from an empty list is answered with status 500 and the text
    "Failed to pop item: list is empty".  PopHandler does have a branch
    that answers 400 "List is empty", but it is taken when the error
    text is "empty list", which is the text of no error of the store,
    so no request ever gets that reply. *)
Theorem PopHandler_empty_list
    (now : time.Time) (r : api.Request api.PopRequest)
    (req : api.PopRequest) (s : MemoryStore) (v : Value) :
  api.Method r = "POST" →
  api.Body r = Some req →
  data s !! api.PopRequest_Key req = Some v →
  expired now v = false →
  IsList v = true →
  List v = [] →
  api.PopHandler now r s =
    (s, api.wrote 500
          {| api.Success := false; api.Data := None;
             api.Error := "Failed to pop item: list is empty" |}) ∧
  (∀ now' r' s',
     (api.PopHandler now' r' s').2 ≠ api.writeError 400 "List is empty").
Proof.
  intros Hm Hbody Hv Hlive Hl Hnil. split.
  - unfold api.PopHandler, http.MethodPost.
    rewrite bool_decide_eq_true_2 by done. simpl. rewrite Hbody.
    by rewrite (Pop_present _ _ _ _ Hv), Hlive, Hl, Hnil.
  - intros now' r' s'. unfold api.PopHandler.
    destruct (negb (bool_decide (api.Method r' = http.MethodPost)));
      [discriminate|].
    destruct (api.Body r') as [req'|]; [|discriminate].
    destruct (Pop now' (api.PopRequest_Key req') s')
      as [s'' [value [err|]]]; [|discriminate].
    destruct (bool_decide (error_Error err = "key not found"));
      [discriminate|].
    rewrite bool_decide_eq_false_2 by apply error_Error_not_empty_list.
    discriminate.
Qed.

(** The store after one Push and one Pop on "l": an empty list. *)
Lemma PopHandler_empty_list_witness :
  let s := store_put "l" (set_List one_item_entry []) one_item_store in
  let r := api.mkRequest "POST" "/api/v1/lists/pop"
             (Some (api.mkPopRequest "l")) in
  api.Method r = "POST" ∧
  api.Body r = Some (api.mkPopRequest "l") ∧
  data s !! "l" = Some (set_List one_item_entry []) ∧
  api.PopHandler t2025 r s =
    (s, api.wrote 500
          {| api.Success := false; api.Data := None;
             api.Error := "Failed to pop item: list is empty" |}).
Proof.
  intros s r.
  assert (H1 : api.Method r = "POST") by reflexivity.
  assert (H2 : api.Body r = Some (api.mkPopRequest "l")) by reflexivity.
  assert (H3 : data s !! api.PopRequest_Key (api.mkPopRequest "l")
               = Some (set_List one_item_entry [])) by reflexivity.
  split; [exact H1|]. split; [exact H2|]. split; [exact H3|].
  exact (proj1 (PopHandler_empty_list t2025 r _ s _ H1 H2 H3
                  eq_refl eq_refl eq_refl)).
Defined.

(** ** GetHandler *)

(** The reply to GET /api/v1/keys/{key} with a non-empty key, at one
    clock reading: 404 when the key is absent or expired (the expired
    entry is deleted), 500 with the store's type error when the key
    holds a live list, and otherwise 200 with the key and its string. *)
Theorem GetHandler_status {B : Type}
    (now : time.Time) (r : api.Request B) (key : string) (s : MemoryStore) :
  api.Method r = "GET" →
  api.Path r = "/api/v1/keys/" +:+ key →
  key ≠ "" →
  api.GetHandler now now r s =
    match data s !! key with
    | None => (s, api.writeError 404 "Key not found")
    | Some v =>
        if expired now v then
          (store_delete key s, api.writeError 404 "Key not found")
        else if IsList v then
          (s, api.writeError 500
                "Failed to get key: operation not supported for this data type")
        else (s, api.writeSuccess {[ "key" := key; "value" := Val v ]})
    end.
Proof.
  intros Hm Hpath Hkey. unfold api.GetHandler, http.MethodGet.
  rewrite bool_decide_eq_true_2 by done. simpl negb. cbv iota.
  rewrite Hpath, slice_from_prefix.
  rewrite bool_decide_eq_false_2 by done.
  destruct (data s !! key) as [v|] eqn:Hv.
  - destruct (expired now v) eqn:Hexp.
    + by rewrite (Get_expired _ _ _ _ _ Hv (Z.le_refl now) Hexp).
    + rewrite (Get_live _ _ _ _ _ Hv Hexp). by destruct (IsList v).
  - by rewrite (Get_absent _ _ _ _ Hv).
Qed.

Lemma GetHandler_status_witness :
  let r : api.Request unit := api.mkRequest "GET" "/api/v1/keys/l" None in
  api.Method r = "GET" ∧ api.Path r = "/api/v1/keys/" +:+ "l" ∧ "l" ≠ "" ∧
  api.GetHandler t2025 t2025 r one_item_store =
    (one_item_store,
     api.writeError 500
       "Failed to get key: operation not supported for this data type").
Proof.
  intros r.
  assert (H1 : api.Method r = "GET") by reflexivity.
  assert (H2 : api.Path r = "/api/v1/keys/" +:+ "l") by reflexivity.
  assert (H3 : "l" ≠ "") by discriminate.
  split; [exact H1|]. split; [exact H2|]. split; [exact H3|].
  exact (GetHandler_status t2025 r "l" one_item_store H1 H2 H3).
Defined.

(** ** A value set over HTTP and read back *)

Lemma SetHandler_200 {Other : Type} (json_Marshal : Other → option string)
    now (r : api.Request (api.SetRequest Other)) req s :
  api.Body r = Some req →
  api.statusCode_of (api.SetHandler json_Marshal now r s).2 = Some 200 →
  api.SetRequest_Key req ≠ "" ∧
  0 < api.SetRequest_TTLSeconds req ∧
  ∃ str,
    Stringify json_Marshal (api.SetRequest_Value req) = Some str ∧
    (api.SetHandler json_Marshal now r s).1 =
      store_put (api.SetRequest_Key req)
        {| Val := str; TTL := now + seconds (api.SetRequest_TTLSeconds req);
           IsList := false; List := [] |} s.
Proof.
  intros Hbody. unfold api.SetHandler. rewrite Hbody.
  destruct (negb (bool_decide (api.Method r = http.MethodPost)));
    [discriminate|].
  destruct (decide (api.SetRequest_Key req = "")) as [Hk|Hk].
  { rewrite bool_decide_eq_true_2 by done. discriminate. }
  rewrite bool_decide_eq_false_2 by done.
  destruct (Z.leb_spec (api.SetRequest_TTLSeconds req) 0) as [Httl|Httl];
    [discriminate|].
  destruct (Stringify json_Marshal (api.SetRequest_Value req)) as [str|]
    eqn:Hstr.
  - rewrite (Set_ok _ _ _ _ _ _ str) by (lia || done).
    assert ((0 <? api.SetRequest_TTLSeconds req) = true) as -> by lia.
    intros _. split; [done|]. split; [done|]. by exists str.
  - unfold Set_. rewrite Hstr.
    assert ((api.SetRequest_TTLSeconds req <? 0) = false) as -> by lia.
    discriminate.
Qed.

(** After a set request that was answered 200 and whose ttl_seconds is
    at most 9223372036, a GET of the same key through the key router,
    at clock readings no later than ttl_seconds seconds after the clock
    reading of the set, is answered 200 with the key and the serialized
    value, and changes nothing in the store. *)
Theorem Set_then_Get_over_http {Other : Type}
    (json_Marshal : Other → option string)
    (now0 now1 now2 : time.Time)
    (rs : api.Request (api.SetRequest Other))
    (rg : api.Request (api.UpdateRequest Other))
    (req : api.SetRequest Other) (s : MemoryStore) :
  api.Body rs = Some req →
  api.statusCode_of (api.SetHandler json_Marshal now0 rs s).2 = Some 200 →
  api.SetRequest_TTLSeconds req ≤ 9223372036 →
  api.Method rg = "GET" →
  api.Path rg = "/api/v1/keys/" +:+ api.SetRequest_Key req →
  now2 ≤ now0 + api.SetRequest_TTLSeconds req * 1000000000 →
  let s' := (api.SetHandler json_Marshal now0 rs s).1 in
  ∃ str,
    Stringify json_Marshal (api.SetRequest_Value req) = Some str ∧
    api.keyOperation json_Marshal now1 now2 rg s' =
      (s', api.writeSuccess
             {[ "key" := api.SetRequest_Key req; "value" := str ]}).
Proof.
  intros Hbody Hok Hrange Hm Hpath Hle s'.
  destruct (SetHandler_200 json_Marshal now0 rs req s Hbody Hok)
    as (Hkey & Hpos & str & Hstr & Hs').
  exists str. split; [exact Hstr|].
  unfold api.keyOperation, api.GetHandler, http.MethodGet.
  rewrite bool_decide_eq_true_2 by done. simpl negb. cbv iota.
  rewrite Hpath, slice_from_prefix.
  rewrite bool_decide_eq_false_2 by done.
  set (e := {| Val := str;
               TTL := now0 + seconds (api.SetRequest_TTLSeconds req);
               IsList := false; List := [] |}) in *.
  assert (Hlook : data s' !! api.SetRequest_Key req = Some e)
    by (unfold s'; rewrite Hs'; apply store_put_lookup).
  assert (Hlive : expired now2 e = false).
  { apply expired_false_iff. right. simpl.
    by rewrite seconds_exact by lia. }
  by rewrite (Get_live _ _ _ _ _ Hlook Hlive).
Qed.

Lemma Set_then_Get_over_http_witness :
  let rs := api.mkRequest "POST" "/api/v1/keys"
              (Some (api.mkSetRequest "k" (any_string "v" : any GoValue) 60)) in
  let rg : api.Request (api.UpdateRequest GoValue) :=
    api.mkRequest "GET" "/api/v1/keys/k" None in
  api.Body rs = Some (api.mkSetRequest "k" (any_string "v") 60) ∧
  api.statusCode_of (api.SetHandler marshal t2025 rs NewMemoryStore).2
    = Some 200 ∧
  60 ≤ 9223372036 ∧
  api.Method rg = "GET" ∧
  api.Path rg = "/api/v1/keys/" +:+ "k" ∧
  t2025 + 5 ≤ t2025 + 60 * 1000000000 ∧
  ∃ str,
    Stringify marshal (any_string "v") = Some str ∧
    api.keyOperation marshal (t2025 + 5) (t2025 + 5) rg
      (api.SetHandler marshal t2025 rs NewMemoryStore).1 =
    ((api.SetHandler marshal t2025 rs NewMemoryStore).1,
     api.writeSuccess {[ "key" := "k"; "value" := str ]}).
Proof.
  intros rs rg.
  assert (H1 : api.Body rs = Some (api.mkSetRequest "k" (any_string "v") 60))
    by reflexivity.
  assert (H2 : api.statusCode_of
                 (api.SetHandler marshal t2025 rs NewMemoryStore).2
               = Some 200) by reflexivity.
  assert (H3 : 60 ≤ 9223372036) by lia.
  assert (H4 : api.Method rg = "GET") by reflexivity.
  assert (H5 : api.Path rg = "/api/v1/keys/" +:+ "k") by reflexivity.
  assert (H6 : t2025 + 5 ≤ t2025 + 60 * 1000000000) by lia.
  split; [exact H1|]. split; [exact H2|]. split; [exact H3|].
  split; [exact H4|]. split; [exact H5|]. split; [exact H6|].
  exact (Set_then_Get_over_http marshal t2025 (t2025 + 5) (t2025 + 5)
           rs rg _ NewMemoryStore H1 H2 H3 H4 H5 H6).
Defined.

(** ** Requests that are refused *)

Section Refused.

Context {Other : Type} (json_Marshal : Other → option string).

Lemma SetHandler_refused now r s :
  refused (api.SetHandler json_Marshal now r s) →
  (api.SetHandler json_Marshal now r s).1 = s.
Proof.
  unfold refused, api.SetHandler.
  destruct (negb (bool_decide (api.Method r = http.MethodPost))); [done|].
  destruct (api.Body r) as [req|]; [|done].
  destruct (bool_decide (api.SetRequest_Key req = "")); [done|].
  destruct (api.SetRequest_TTLSeconds req <=? 0); [done|].
  destruct (Set_ json_Marshal now (api.SetRequest_Key req)
              (api.SetRequest_Value req) (api.SetRequest_TTLSeconds req) s)
    as [s' [err|]] eqn:E; simpl; [|by intros [? ?]].
  intros _.
  by rewrite <- (Set_error_keeps_store json_Marshal now _ _ _ s err), E
    by (by rewrite E).
Qed.

Lemma GetHandler_refused {B : Type} now1 now2 (r : api.Request B) s :
  refused (api.GetHandler now1 now2 r s) →
  (api.GetHandler now1 now2 r s).1 = s.
Proof.
  unfold refused, api.GetHandler.
  destruct (negb (bool_decide (api.Method r = http.MethodGet))); [done|].
  destruct (api.slice_from _ (api.Path r)) as [key|]; [|done].
  destruct (bool_decide (key = "")); [done|].
  destruct (Get now1 now2 key s) as [s' [value [err|]]] eqn:E; simpl;
    [|by intros [? ?]].
  destruct (decide (error_Error err = "key not found")) as [Hk|Hk].
  { rewrite bool_decide_eq_true_2 by done. simpl. by intros [_ ?]. }
  rewrite bool_decide_eq_false_2 by done. intros _.
  rewrite <- (Get_error_keeps_store now1 now2 key s err), E;
    [done|by rewrite E|].
  intros ->. by apply Hk.
Qed.

Lemma UpdateHandler_refused now r s :
  refused (api.UpdateHandler json_Marshal now r s) →
  (api.UpdateHandler json_Marshal now r s).1 = s.
Proof.
  unfold refused, api.UpdateHandler.
  destruct (negb (bool_decide (api.Method r = http.MethodPut))); [done|].
  destruct (api.slice_from _ (api.Path r)) as [key|]; [|done].
  destruct (bool_decide (key = "")); [done|].
  destruct (api.Body r) as [req|]; [|done].
  destruct (Update json_Marshal now key (api.UpdateRequest_Value req) s)
    as [s' [err|]] eqn:E; simpl; [|by intros [? ?]].
  destruct (decide (error_Error err = "key not found")) as [Hk|Hk].
  { rewrite bool_decide_eq_true_2 by done. simpl. by intros [_ ?]. }
  rewrite bool_decide_eq_false_2 by done. intros _.
  rewrite <- (Update_error_keeps_store json_Marshal now key
                (api.UpdateRequest_Value req) s err), E;
    [done|by rewrite E|].
  intros ->. by apply Hk.
Qed.

Lemma RemoveHandler_refused {B : Type} (r : api.Request B) s :
  refused (api.RemoveHandler r s) → (api.RemoveHandler r s).1 = s.
Proof.
  unfold refused, api.RemoveHandler.
  destruct (negb (bool_decide (api.Method r = http.MethodDelete))); [done|].
  destruct (api.slice_from _ (api.Path r)) as [key|]; [|done].
  destruct (bool_decide (key = "")); [done|].
  destruct (Remove key s) as [s' [err|]] eqn:E; simpl; [|by intros [? ?]].
  destruct (bool_decide (error_Error err = "key not found")); simpl;
    [by intros [_ ?]|].
  intros _.
  by rewrite <- (Remove_error_keeps_store key s err), E by (by rewrite E).
Qed.

Lemma PushHandler_refused now1 now2 r s :
  refused (api.PushHandler json_Marshal now1 now2 r s) →
  (api.PushHandler json_Marshal now1 now2 r s).1 = s.
Proof.
  unfold refused, api.PushHandler.
  destruct (negb (bool_decide (api.Method r = http.MethodPost))); [done|].
  destruct (api.Body r) as [req|]; [|done].
  destruct (Push json_Marshal now1 now2 (api.PushRequest_Key req)
              (api.PushRequest_Item req) s) as [s' [err|]] eqn:E; simpl;
    [|by intros [? ?]].
  intros _.
  by rewrite <- (Push_error_keeps_store json_Marshal now1 now2 _ _ s err), E
    by (by rewrite E).
Qed.

Lemma PopHandler_refused now r s :
  refused (api.PopHandler now r s) → (api.PopHandler now r s).1 = s.
Proof.
  unfold refused, api.PopHandler.
  destruct (negb (bool_decide (api.Method r = http.MethodPost))); [done|].
  destruct (api.Body r) as [req|]; [|done].
  destruct (Pop now (api.PopRequest_Key req) s) as [s' [value [err|]]] eqn:E;
    simpl; [|by intros [? ?]].
  destruct (decide (error_Error err = "key not found")) as [Hk|Hk].
  { rewrite bool_decide_eq_true_2 by done. simpl. by intros [_ ?]. }
  rewrite bool_decide_eq_false_2 by done.
  rewrite bool_decide_eq_false_2 by apply error_Error_not_empty_list.
  intros _.
  rewrite <- (Pop_error_keeps_store now (api.PopRequest_Key req) s err), E;
    [done|by rewrite E|].
  intros ->. by apply Hk.
Qed.

End Refused.

(** Whatever the request, a handler that answers with a status other
    than 200 and 404, or that panics, has not changed the store: a
    refused method (405), a body that does not decode, an empty key or a
    bad ttl (400), and a type or marshalling error of the store (500)
    all leave every entry as it was.  This holds for the six handlers
    and for the router of the key path. *)
Theorem refused_requests_leave_store {Other : Type}
    (json_Marshal : Other → option string) (s : MemoryStore) :
  (∀ now r, refused (api.SetHandler json_Marshal now r s) →
            (api.SetHandler json_Marshal now r s).1 = s) ∧
  (∀ (B : Type) now1 now2 (r : api.Request B),
     refused (api.GetHandler now1 now2 r s) →
     (api.GetHandler now1 now2 r s).1 = s) ∧
  (∀ now r, refused (api.UpdateHandler json_Marshal now r s) →
            (api.UpdateHandler json_Marshal now r s).1 = s) ∧
  (∀ (B : Type) (r : api.Request B),
     refused (api.RemoveHandler r s) → (api.RemoveHandler r s).1 = s) ∧
  (∀ now1 now2 r,
     refused (api.PushHandler json_Marshal now1 now2 r s) →
     (api.PushHandler json_Marshal now1 now2 r s).1 = s) ∧
  (∀ now r, refused (api.PopHandler now r s) →
            (api.PopHandler now r s).1 = s) ∧
  (∀ now1 now2 r,
     refused (api.keyOperation json_Marshal now1 now2 r s) →
     (api.keyOperation json_Marshal now1 now2 r s).1 = s).
Proof.
  split_and!.
  - intros. by apply SetHandler_refused.
  - intros. by apply GetHandler_refused.
  - intros. by apply UpdateHandler_refused.
  - intros. by apply RemoveHandler_refused.
  - intros. by apply PushHandler_refused.
  - intros. by apply PopHandler_refused.
  - intros now1 now2 r. unfold api.keyOperation.
    destruct (bool_decide (api.Method r = http.MethodGet));
      [apply GetHandler_refused|].
    destruct (bool_decide (api.Method r = http.MethodPut));
      [apply UpdateHandler_refused|].
    destruct (bool_decide (api.Method r = http.MethodDelete));
      [apply RemoveHandler_refused|done].
Qed.

Lemma refused_requests_leave_store_witness :
  let r := api.mkRequest "POST" "/api/v1/lists/push"
             (Some (api.mkPushRequest "k" (any_string "x" : any GoValue))) in
  refused (api.PushHandler marshal t2025 t2025 r one_second_store) ∧
  (api.PushHandler marshal t2025 t2025 r one_second_store).1
    = one_second_store.
Proof.
  intros r.
  assert (H : refused (api.PushHandler marshal t2025 t2025 r one_second_store))
    by (split; discriminate).
  split; [exact H|].
  destruct (refused_requests_leave_store marshal one_second_store)
    as (_ & _ & _ & _ & Hpush & _).
  exact (Hpush t2025 t2025 r H).
Defined.

(** ** The router of the key path *)

Section KeyPath.

Context {Other : Type} (json_Marshal : Other → option string).

Lemma GetHandler_panicked {B : Type} now1 now2 (r : api.Request B) s :
  (api.GetHandler now1 now2 r s).2 = api.panicked ↔
  api.Method r = "GET" ∧
  (String.length (api.Path r) < String.length "/api/v1/keys/")%nat.
Proof.
  unfold api.GetHandler, http.MethodGet.
  destruct (decide (api.Method r = "GET")) as [Hm|Hm].
  2:{ rewrite bool_decide_eq_false_2 by done. simpl. naive_solver. }
  rewrite bool_decide_eq_true_2 by done. simpl negb. cbv iota.
  rewrite <- slice_from_None.
  destruct (api.slice_from _ (api.Path r)) as [key|]; [|done].
  destruct (bool_decide (key = "")); [naive_solver|].
  destruct (Get now1 now2 key s) as [s' [value [err|]]]; [|naive_solver].
  destruct (bool_decide (error_Error err = "key not found")); naive_solver.
Qed.

Lemma UpdateHandler_panicked now (r : api.Request (api.UpdateRequest Other))
    s :
  (api.UpdateHandler json_Marshal now r s).2 = api.panicked ↔
  api.Method r = "PUT" ∧
  (String.length (api.Path r) < String.length "/api/v1/keys/")%nat.
Proof.
  unfold api.UpdateHandler, http.MethodPut.
  destruct (decide (api.Method r = "PUT")) as [Hm|Hm].
  2:{ rewrite bool_decide_eq_false_2 by done. simpl. naive_solver. }
  rewrite bool_decide_eq_true_2 by done. simpl negb. cbv iota.
  rewrite <- slice_from_None.
  destruct (api.slice_from _ (api.Path r)) as [key|]; [|done].
  destruct (bool_decide (key = "")); [naive_solver|].
  destruct (api.Body r) as [req|]; [|naive_solver].
  destruct (Update json_Marshal now key (api.UpdateRequest_Value req) s)
    as [s' [err|]]; [|naive_solver].
  destruct (bool_decide (error_Error err = "key not found")); naive_solver.
Qed.

Lemma RemoveHandler_panicked {B : Type} (r : api.Request B) s :
  (api.RemoveHandler r s).2 = api.panicked ↔
  api.Method r = "DELETE" ∧
  (String.length (api.Path r) < String.length "/api/v1/keys/")%nat.
Proof.
  unfold api.RemoveHandler, http.MethodDelete.
  destruct (decide (api.Method r = "DELETE")) as [Hm|Hm].
  2:{ rewrite bool_decide_eq_false_2 by done. simpl. naive_solver. }
  rewrite bool_decide_eq_true_2 by done. simpl negb. cbv iota.
  rewrite <- slice_from_None.
  destruct (api.slice_from _ (api.Path r)) as [key|]; [|done].
  destruct (bool_decide (key = "")); [naive_solver|].
  destruct (Remove key s) as [s' [err|]]; [|naive_solver].
  destruct (bool_decide (error_Error err = "key not found")); naive_solver.
Qed.

End KeyPath.

(** The router of /api/v1/keys/ panics exactly when the method is GET,
    PUT or DELETE and the path is shorter than the route prefix, whose
    length the handlers slice off without looking at the path; on any
    path that starts with the prefix, as every path the mux routes here
    does, it always writes a reply.  A method other than the three is
    answered 405 and the store is not consulted. *)
Theorem keyOperation_panics_iff {Other : Type}
    (json_Marshal : Other → option string)
    (now1 now2 : time.Time) (r : api.Request (api.UpdateRequest Other))
    (s : MemoryStore) :
  ((api.keyOperation json_Marshal now1 now2 r s).2 = api.panicked ↔
   (api.Method r = "GET" ∨ api.Method r = "PUT" ∨ api.Method r = "DELETE") ∧
   (String.length (api.Path r) < String.length "/api/v1/keys/")%nat) ∧
  (∀ key, api.Path r = "/api/v1/keys/" +:+ key →
          (api.keyOperation json_Marshal now1 now2 r s).2 ≠ api.panicked) ∧
  (api.Method r ≠ "GET" → api.Method r ≠ "PUT" → api.Method r ≠ "DELETE" →
   api.keyOperation json_Marshal now1 now2 r s =
     (s, api.writeError 405 "Method not allowed")).
Proof.
  assert (Hiff :
    (api.keyOperation json_Marshal now1 now2 r s).2 = api.panicked ↔
    (api.Method r = "GET" ∨ api.Method r = "PUT" ∨ api.Method r = "DELETE") ∧
    (String.length (api.Path r) < String.length "/api/v1/keys/")%nat).
  { unfold api.keyOperation, http.MethodGet, http.MethodPut,
      http.MethodDelete.
    destruct (decide (api.Method r = "GET")) as [Hg|Hg].
    { rewrite bool_decide_eq_true_2 by done.
      rewrite GetHandler_panicked. naive_solver. }
    rewrite bool_decide_eq_false_2 by done.
    destruct (decide (api.Method r = "PUT")) as [Hp|Hp].
    { rewrite bool_decide_eq_true_2 by done.
      rewrite UpdateHandler_panicked. naive_solver. }
    rewrite bool_decide_eq_false_2 by done.
    destruct (decide (api.Method r = "DELETE")) as [Hd|Hd].
    { rewrite bool_decide_eq_true_2 by done.
      rewrite RemoveHandler_panicked. naive_solver. }
    rewrite bool_decide_eq_false_2 by done. simpl. naive_solver. }
  split; [exact Hiff|]. split.
  - intros key Hpath Hpanic. apply Hiff in Hpanic as [_ Hshort].
    apply slice_from_None in Hshort.
    by rewrite Hpath, slice_from_prefix in Hshort.
  - intros Hg Hp Hd. unfold api.keyOperation, http.MethodGet, http.MethodPut,
      http.MethodDelete.
    by rewrite !bool_decide_eq_false_2 by done.
Qed.

Lemma keyOperation_panics_iff_witness :
  let r : api.Request (api.UpdateRequest GoValue) :=
    api.mkRequest "DELETE" "/api/v1/keys/k" None in
  api.Path r = "/api/v1/keys/" +:+ "k" ∧
  (api.keyOperation marshal t2025 t2025 r one_second_store).2 ≠ api.panicked.
Proof.
  intros r.
  assert (H : api.Path r = "/api/v1/keys/" +:+ "k") by reflexivity.
  split; [exact H|].
  exact (proj1 (proj2
    (keyOperation_panics_iff marshal t2025 t2025 r one_second_store)) "k" H).
Defined.

(** ** The empty key *)

Section EmptyKey.

Context {Other : Type} (json_Marshal : Other → option string).

Lemma SetHandler_empty_key now r s :
  data (api.SetHandler json_Marshal now r s).1 !! "" = data s !! "".
Proof.
  unfold api.SetHandler.
  destruct (negb (bool_decide (api.Method r = http.MethodPost))); [done|].
  destruct (api.Body r) as [req|]; [|done].
  destruct (decide (api.SetRequest_Key req = "")) as [Hk|Hk].
  { by rewrite bool_decide_eq_true_2 by done. }
  rewrite bool_decide_eq_false_2 by done.
  destruct (api.SetRequest_TTLSeconds req <=? 0); [done|].
  pose proof (Set_frame json_Marshal (api.SetRequest_Key req) "" s
                (not_eq_sym Hk) now (api.SetRequest_Value req)
                (api.SetRequest_TTLSeconds req)) as Hframe.
  destruct (Set_ json_Marshal now (api.SetRequest_Key req)
              (api.SetRequest_Value req) (api.SetRequest_TTLSeconds req) s)
    as [s' [err|]]; exact Hframe.
Qed.

Lemma GetHandler_empty_key {B : Type} now1 now2 (r : api.Request B) s :
  data (api.GetHandler now1 now2 r s).1 !! "" = data s !! "".
Proof.
  unfold api.GetHandler.
  destruct (negb (bool_decide (api.Method r = http.MethodGet))); [done|].
  destruct (api.slice_from _ (api.Path r)) as [key|]; [|done].
  destruct (decide (key = "")) as [Hk|Hk].
  { by rewrite bool_decide_eq_true_2 by done. }
  rewrite bool_decide_eq_false_2 by done.
  pose proof (Get_frame key "" s (not_eq_sym Hk) now1 now2) as Hframe.
  destruct (Get now1 now2 key s) as [s' [value [err|]]]; [|exact Hframe].
  by destruct (bool_decide (error_Error err = "key not found")).
Qed.

Lemma UpdateHandler_empty_key now r s :
  data (api.UpdateHandler json_Marshal now r s).1 !! "" = data s !! "".
Proof.
  unfold api.UpdateHandler.
  destruct (negb (bool_decide (api.Method r = http.MethodPut))); [done|].
  destruct (api.slice_from _ (api.Path r)) as [key|]; [|done].
  destruct (decide (key = "")) as [Hk|Hk].
  { by rewrite bool_decide_eq_true_2 by done. }
  rewrite bool_decide_eq_false_2 by done.
  destruct (api.Body r) as [req|]; [|done].
  pose proof (Update_frame json_Marshal key "" s (not_eq_sym Hk) now
                (api.UpdateRequest_Value req)) as Hframe.
  destruct (Update json_Marshal now key (api.UpdateRequest_Value req) s)
    as [s' [err|]]; [|exact Hframe].
  by destruct (bool_decide (error_Error err = "key not found")).
Qed.

Lemma RemoveHandler_empty_key {B : Type} (r : api.Request B) s :
  data (api.RemoveHandler r s).1 !! "" = data s !! "".
Proof.
  unfold api.RemoveHandler.
  destruct (negb (bool_decide (api.Method r = http.MethodDelete))); [done|].
  destruct (api.slice_from _ (api.Path r)) as [key|]; [|done].
  destruct (decide (key = "")) as [Hk|Hk].
  { by rewrite bool_decide_eq_true_2 by done. }
  rewrite bool_decide_eq_false_2 by done.
  pose proof (Remove_frame key "" s (not_eq_sym Hk)) as Hframe.
  destruct (Remove key s) as [s' [err|]]; [|exact Hframe].
  by destruct (bool_decide (error_Error err = "key not found")).
Qed.

Lemma SetHandler_reply_off_empty_key now r s1 s2 :
  (api.SetHandler json_Marshal now r s1).2 =
    (api.SetHandler json_Marshal now r s2).2.
Proof.
  unfold api.SetHandler.
  destruct (negb (bool_decide (api.Method r = http.MethodPost))); [done|].
  destruct (api.Body r) as [req|]; [|done].
  destruct (bool_decide (api.SetRequest_Key req = "")); [done|].
  destruct (api.SetRequest_TTLSeconds req <=? 0); [done|].
  pose proof (proj1 (Set_depends_on_key json_Marshal now
    (api.SetRequest_Key req) (api.SetRequest_Value req)
    (api.SetRequest_TTLSeconds req) s1 s2)) as Hres.
  destruct (Set_ json_Marshal now (api.SetRequest_Key req)
              (api.SetRequest_Value req) (api.SetRequest_TTLSeconds req) s1)
    as [s1' e1].
  destruct (Set_ json_Marshal now (api.SetRequest_Key req)
              (api.SetRequest_Value req) (api.SetRequest_TTLSeconds req) s2)
    as [s2' e2].
  simpl in Hres. subst e2. by destruct e1.
Qed.

Lemma GetHandler_reply_off_empty_key {B : Type} now1 now2
    (r : api.Request B) s1 s2 :
  same_off_empty_key s1 s2 →
  (api.GetHandler now1 now2 r s1).2 = (api.GetHandler now1 now2 r s2).2.
Proof.
  intros Hsame. unfold api.GetHandler.
  destruct (negb (bool_decide (api.Method r = http.MethodGet))); [done|].
  destruct (api.slice_from _ (api.Path r)) as [key|]; [|done].
  destruct (decide (key = "")) as [Hk|Hk].
  { by rewrite bool_decide_eq_true_2 by done. }
  rewrite bool_decide_eq_false_2 by done.
  pose proof (proj1 (Get_depends_on_key now1 now2 key s1 s2 (Hsame key Hk)))
    as Hres.
  destruct (Get now1 now2 key s1) as [s1' [v1 e1]].
  destruct (Get now1 now2 key s2) as [s2' [v2 e2]].
  simpl in Hres. injection Hres as -> ->.
  destruct e2 as [err|]; [|done].
  by destruct (bool_decide (error_Error err = "key not found")).
Qed.

Lemma UpdateHandler_reply_off_empty_key now r s1 s2 :
  same_off_empty_key s1 s2 →
  (api.UpdateHandler json_Marshal now r s1).2 =
    (api.UpdateHandler json_Marshal now r s2).2.
Proof.
  intros Hsame. unfold api.UpdateHandler.
  destruct (negb (bool_decide (api.Method r = http.MethodPut))); [done|].
  destruct (api.slice_from _ (api.Path r)) as [key|]; [|done].
  destruct (decide (key = "")) as [Hk|Hk].
  { by rewrite bool_decide_eq_true_2 by done. }
  rewrite bool_decide_eq_false_2 by done.
  destruct (api.Body r) as [req|]; [|done].
  pose proof (proj1 (Update_depends_on_key json_Marshal now key
    (api.UpdateRequest_Value req) s1 s2 (Hsame key Hk))) as Hres.
  destruct (Update json_Marshal now key (api.UpdateRequest_Value req) s1)
    as [s1' e1].
  destruct (Update json_Marshal now key (api.UpdateRequest_Value req) s2)
    as [s2' e2].
  simpl in Hres. subst e2. destruct e1 as [err|]; [|done].
  by destruct (bool_decide (error_Error err = "key not found")).
Qed.

Lemma RemoveHandler_reply_off_empty_key {B : Type} (r : api.Request B)
    s1 s2 :
  same_off_empty_key s1 s2 →
  (api.RemoveHandler r s1).2 = (api.RemoveHandler r s2).2.
Proof.
  intros Hsame. unfold api.RemoveHandler.
  destruct (negb (bool_decide (api.Method r = http.MethodDelete))); [done|].
  destruct (api.slice_from _ (api.Path r)) as [key|]; [|done].
  destruct (decide (key = "")) as [Hk|Hk].
  { by rewrite bool_decide_eq_true_2 by done. }
  rewrite bool_decide_eq_false_2 by done.
  pose proof (proj1 (Remove_depends_on_key key s1 s2 (Hsame key Hk)))
    as Hres.
  destruct (Remove key s1) as [s1' e1].
  destruct (Remove key s2) as [s2' e2].
  simpl in Hres. subst e2. destruct e1 as [err|]; [|done].
  by destruct (bool_decide (error_Error err = "key not found")).
Qed.

End EmptyKey.

(** PushHandler does not check the key, so a push under the empty key
    is accepted and puts the item in front of the list there.  The set
    handler and the three handlers of the key path refuse an empty key,
    so no request to them reads, overwrites or removes the entry under
    the empty key: they leave that entry as it is, and their reply is
    the same on any two stores that differ only in what they hold under
    the empty key.  The entry can only be pushed to and popped from. *)
Theorem empty_key_is_out_of_reach {Other : Type}
    (json_Marshal : Other → option string) (s : MemoryStore) :
  (∀ now1 now2 r req str l,
     api.Method r = "POST" →
     api.Body r = Some req →
     api.PushRequest_Key req = "" →
     Stringify json_Marshal (api.PushRequest_Item req) = Some str →
     holds_list "" l s →
     (api.PushHandler json_Marshal now1 now2 r s).2 =
       api.writeSuccess {[ "message" := "Item pushed successfully" ]} ∧
     holds_list "" (str :: l) (api.PushHandler json_Marshal now1 now2 r s).1) ∧
  (∀ now r, data (api.SetHandler json_Marshal now r s).1 !! "" = data s !! "") ∧
  (∀ now1 now2 r,
     data (api.keyOperation json_Marshal now1 now2 r s).1 !! "" =
       data s !! "") ∧
  (∀ s2, same_off_empty_key s2 s →
     (∀ now r,
        (api.SetHandler json_Marshal now r s2).2 =
          (api.SetHandler json_Marshal now r s).2) ∧
     (∀ now1 now2 r,
        (api.keyOperation json_Marshal now1 now2 r s2).2 =
          (api.keyOperation json_Marshal now1 now2 r s).2)).
Proof.
  split_and!.
  - intros now1 now2 r req str l Hm Hbody Hkey Hstr Hl.
    unfold api.PushHandler, http.MethodPost.
    rewrite bool_decide_eq_true_2 by done. simpl negb. cbv iota.
    rewrite Hbody, Hkey.
    destruct (Push_holds_list json_Marshal now1 now2 "" _ str l s Hl Hstr)
      as [Hok Hl'].
    destruct (Push json_Marshal now1 now2 "" (api.PushRequest_Item req) s)
      as [s' [err|]]; [discriminate|done].
  - intros. apply SetHandler_empty_key.
  - intros now1 now2 r. unfold api.keyOperation.
    destruct (bool_decide (api.Method r = http.MethodGet));
      [apply GetHandler_empty_key|].
    destruct (bool_decide (api.Method r = http.MethodPut));
      [apply UpdateHandler_empty_key|].
    destruct (bool_decide (api.Method r = http.MethodDelete));
      [apply RemoveHandler_empty_key|done].
  - intros s2 Hsame. split.
    + intros now r. apply SetHandler_reply_off_empty_key.
    + intros now1 now2 r. unfold api.keyOperation.
      destruct (bool_decide (api.Method r = http.MethodGet));
        [by apply GetHandler_reply_off_empty_key|].
      destruct (bool_decide (api.Method r = http.MethodPut));
        [by apply UpdateHandler_reply_off_empty_key|].
      destruct (bool_decide (api.Method r = http.MethodDelete));
        [by apply RemoveHandler_reply_off_empty_key|done].
Qed.

Lemma empty_key_is_out_of_reach_witness :
  let r := api.mkRequest "POST" "/api/v1/lists/push"
             (Some (api.mkPushRequest "" (any_string "x" : any GoValue))) in
  api.Method r = "POST" ∧
  api.Body r = Some (api.mkPushRequest "" (any_string "x")) ∧
  holds_list "" [] NewMemoryStore ∧
  holds_list "" ["x"]
    (api.PushHandler marshal t2025 t2025 r NewMemoryStore).1 ∧
  same_off_empty_key
    (api.PushHandler marshal t2025 t2025 r NewMemoryStore).1
    NewMemoryStore ∧
  (api.keyOperation marshal t2025 t2025
     (api.mkRequest "GET" "/api/v1/keys/k" None)
     (api.PushHandler marshal t2025 t2025 r NewMemoryStore).1).2 =
  (api.keyOperation marshal t2025 t2025
     (api.mkRequest "GET" "/api/v1/keys/k" None) NewMemoryStore).2.
Proof.
  intros r.
  assert (H1 : api.Method r = "POST") by reflexivity.
  assert (H2 : api.Body r = Some (api.mkPushRequest "" (any_string "x")))
    by reflexivity.
  assert (H3 : holds_list "" [] NewMemoryStore) by reflexivity.
  assert (H4 : same_off_empty_key
    (api.PushHandler marshal t2025 t2025 r NewMemoryStore).1 NewMemoryStore).
  { assert (E : (api.PushHandler marshal t2025 t2025 r NewMemoryStore).1 =
      store_put ""
        {| Val := ""; TTL := time.zero; IsList := true; List := ["x"] |}
        NewMemoryStore) by reflexivity.
    intros k Hk. rewrite E. apply store_put_lookup_ne. congruence. }
  split; [exact H1|]. split; [exact H2|]. split; [exact H3|].
  destruct (empty_key_is_out_of_reach marshal NewMemoryStore)
    as (Hpush & _ & _ & Hreply).
  split.
  - exact (proj2 (Hpush t2025 t2025 r _ "x" [] H1 H2 eq_refl eq_refl H3)).
  - split; [exact H4|].
    exact (proj2 (Hreply _ H4) t2025 t2025
             (api.mkRequest "GET" "/api/v1/keys/k" None)).
Defined.

(** ** DELETE of an expired key *)


